(** * A shallow embedding of the aw-datastore PostgreSQL worker

    Sources: aw-datastore/src/worker.rs, aw-datastore/src/lib.rs and
    aw-datastore/src/postgres_helpers.rs.

    Conventions.
    - [DateTime<Utc>] and [chrono::Duration] are integers of microseconds
      ([Z]); the database stores both at that precision.
    - A serde_json [Map<String, Value>] is a [gmap string string] whose
      values are the canonical JSON texts of the [Value]s.
    - The heartbeat [pulsetime] (an [f64] of seconds) is given in
      microseconds.
    - The SQL pool is the type class [SqlAdapter]: the worker is written
      against it, and [PgModel] is an in-memory model of the PostgreSQL
      helpers over the schema's three tables. *)

From stdpp Require Import base gmap strings list.
From Stdlib Require Import String Ascii ZArith Lia Sorted.

Open Scope Z_scope.

(* ------------------------------------------------------------------ *)
(** ** Data model (aw_models, lib.rs) *)

Abbreviation JsonMap := (gmap string string).

Record Event := mkEvent {
  ev_id : option Z;
  ev_timestamp : Z;
  ev_duration : Z;
  ev_data : JsonMap
}.

Record BucketMetadata := mkBucketMetadata {
  md_start : option Z;
  md_end : option Z
}.

Record Bucket := mkBucket {
  b_bid : option Z;
  b_id : string;
  b_type : string;
  b_client : string;
  b_hostname : string;
  b_created : option Z;
  b_data : JsonMap;
  b_metadata : BucketMetadata;
  b_events : option (list Event);
  b_last_updated : option Z
}.

(** [DatastoreError] of lib.rs. *)
Inductive DatastoreError :=
| NoSuchBucket (s : string)
| BucketAlreadyExists (s : string)
| NoSuchKey (s : string)
| MpscError
| InternalError (s : string)
| Uninitialized (s : string)
| OldDbVersion (s : string).

(** Rust's [Result<A, DatastoreError>]. *)
Inductive Result (A : Type) :=
| Ok (a : A)
| Err (e : DatastoreError).
Arguments Ok {A} a.
Arguments Err {A} e.

(** [DatastoreMethod] of lib.rs. *)
Inductive DatastoreMethod :=
| Postgres (connection_string : string).

(** [Response] and [Command] of worker.rs.  The [f64] pulsetime of
    [Heartbeat] is carried in microseconds. *)
Inductive Response :=
| REmpty
| RBucket (b : Bucket)
| RBucketMap (m : gmap string Bucket)
| REvent (e : Event)
| REventList (l : list Event)
| RCount (n : Z)
| RKeyValue (v : string)
| RKeyValues (m : gmap string string).

Inductive Command :=
| CreateBucket (b : Bucket)
| DeleteBucket (bucketname : string)
| GetBucket (bucketname : string)
| GetBuckets
| InsertEvents (bucketname : string) (events : list Event)
| Heartbeat (bucketname : string) (event : Event) (pulsetime : Z)
| GetEvent (bucketname : string) (event_id : Z)
| GetEvents (bucketname : string) (starttime_opt endtime_opt : option Z)
    (limit_opt : option Z)
| GetEventCount (bucketname : string) (starttime_opt endtime_opt : option Z)
| DeleteEventsById (bucketname : string) (event_ids : list Z)
| ForceCommit
| GetKeyValues (pattern : string)
| GetKeyValue (key : string)
| SetKeyValue (key data : string)
| DeleteKeyValue (key : string)
| Close.

(* ------------------------------------------------------------------ *)
(** ** The heartbeat merge (aw_transform::heartbeat) *)

(** Modelled from the spec: [aw_transform::heartbeat], called by the
    worker's [Heartbeat] command, belongs to the aw-transform crate of
    this repository and is not among the sources.  Following the spec
    (section 4.D, step 2): the merge succeeds iff [next.data == prev.data]
    and the gap between the end of [prev] and [next.timestamp] is
    non-negative and at most [pulsetime]; the merged event keeps
    [prev.id], [prev.timestamp] and [prev.data], and lasts until the end
    of [next]. *)
Definition heartbeat (prev next : Event) (pulsetime : Z) : option Event :=
  let gap := ev_timestamp next - (ev_timestamp prev + ev_duration prev) in
  if bool_decide (ev_data next = ev_data prev) && (0 <=? gap) && (gap <=? pulsetime)
  then Some (mkEvent (ev_id prev) (ev_timestamp prev)
               ((ev_timestamp next + ev_duration next) - ev_timestamp prev)
               (ev_data prev))
  else None.

(* ------------------------------------------------------------------ *)
(** ** Machine integers and strings *)

(** [i64] bounds; [num_microseconds] of [chrono::Duration] fails outside
    them. *)
Definition i64_min : Z := - 2 ^ 63.
Definition i64_max : Z := 2 ^ 63 - 1.

Definition num_microseconds (d : Z) : option Z :=
  if (i64_min <=? d) && (d <=? i64_max) then Some d else None.

(** [limit as i64] on a [u64]: two's-complement reinterpretation. *)
Definition u64_as_i64 (l : Z) : Z :=
  let m := l mod 2 ^ 64 in
  if 2 ^ 63 <=? m then m - 2 ^ 64 else m.

(** PostgreSQL's [LIKE] with its default escape character [\]: [%]
    matches any sequence, [_] any single character.  [None] is the
    error a pattern ending in the escape character raises when the
    matcher reaches it. *)
Fixpoint like_match (p s : list ascii) {struct p} : option bool :=
  match p with
  | [] => Some (match s with [] => true | _ => false end)
  | c :: p' =>
      if ascii_dec c "%"%char then
        (fix go (s : list ascii) : option bool :=
           match like_match p' s with
           | Some false => match s with [] => Some false | _ :: s' => go s' end
           | r => r
           end) s
      else if ascii_dec c "_"%char then
        match s with [] => Some false | _ :: s' => like_match p' s' end
      else if ascii_dec c "\"%char then
        match p' with
        | [] => None
        | c2 :: p'' =>
            match s with
            | c' :: s' => if ascii_dec c2 c' then like_match p'' s' else Some false
            | [] => Some false
            end
        end
      else
        match s with
        | c' :: s' => if ascii_dec c c' then like_match p' s' else Some false
        | [] => Some false
        end
  end.

Definition like (key pattern : string) : option bool :=
  like_match (list_ascii_of_string pattern) (list_ascii_of_string key).

(* ------------------------------------------------------------------ *)
(** ** postgres_helpers.rs over an in-memory model of the schema *)

Module postgres_helpers.

(** Rows of [buckets] and [events]; the tables are lists in insertion
    order, the serial sequences are counters. *)
Record BucketRow := mkBucketRow {
  br_id : Z;
  br_bucket_id : string;
  br_name : string;
  br_type : string;
  br_client : string;
  br_hostname : string;
  br_created : Z;
  br_data : JsonMap
}.

Record EventRow := mkEventRow {
  er_id : Z;
  er_bucket_id : string;
  er_timestamp : Z;
  er_duration : Z;
  er_data : JsonMap
}.

Record Db := mkDb {
  buckets : list BucketRow;
  events : list EventRow;
  key_value : gmap string string;
  buckets_id_seq : Z;
  events_id_seq : Z;
  now : Z
}.

Definition set_buckets (db : Db) (l : list BucketRow) (seq : Z) : Db :=
  mkDb l (events db) (key_value db) seq (events_id_seq db) (now db).
Definition set_events (db : Db) (l : list EventRow) (seq : Z) : Db :=
  mkDb (buckets db) l (key_value db) (buckets_id_seq db) seq (now db).
Definition set_key_value_tbl (db : Db) (m : gmap string string) : Db :=
  mkDb (buckets db) (events db) m (buckets_id_seq db) (events_id_seq db) (now db).

Definition bucket_exists (db : Db) (bucket_id : string) : bool :=
  existsb (fun r => bool_decide (br_bucket_id r = bucket_id)) (buckets db).

Definition row_to_event (r : EventRow) : Event :=
  mkEvent (Some (er_id r)) (er_timestamp r) (er_duration r) (er_data r).

Definition opt_min (l : list Z) : option Z :=
  match l with [] => None | x :: r => Some (fold_left Z.min r x) end.
Definition opt_max (l : list Z) : option Z :=
  match l with [] => None | x :: r => Some (fold_left Z.max r x) end.

(** [get_stored_buckets]: the [LEFT OUTER JOIN ... GROUP BY] computing
    [first_event] and [last_event] per bucket. *)
Definition stored_bucket (db : Db) (r : BucketRow) : Bucket :=
  let evs := List.filter (fun e => bool_decide (er_bucket_id e = br_bucket_id r)) (events db) in
  mkBucket (Some (br_id r)) (br_bucket_id r) (br_type r) (br_client r)
    (br_hostname r) (Some (br_created r)) (br_data r)
    (mkBucketMetadata (opt_min (map er_timestamp evs))
       (opt_max (map (fun e => er_timestamp e + er_duration e) evs)))
    None None.

Definition get_stored_buckets (db : Db) : Result (gmap string Bucket) * Db :=
  (Ok (foldl (fun m r => <[br_bucket_id r := stored_bucket db r]> m) ∅ (buckets db)),
   db).

(** [create_bucket]: the [SERIAL] value is drawn before the unique
    check, as PostgreSQL does. *)
Definition create_bucket (bucket : Bucket) (db : Db) : Result Bucket * Db :=
  let created := default (now db) (b_created bucket) in
  let id := buckets_id_seq db in
  if bucket_exists db (b_id bucket) then
    (Err (BucketAlreadyExists (b_id bucket)), set_buckets db (buckets db) (id + 1))
  else
    let row := mkBucketRow id (b_id bucket) (b_id bucket) (b_type bucket)
                 (b_client bucket) (b_hostname bucket) created (b_data bucket) in
    (Ok (mkBucket (Some id) (b_id bucket) (b_type bucket) (b_client bucket)
           (b_hostname bucket) (Some created) (b_data bucket)
           (b_metadata bucket) (b_events bucket) (b_last_updated bucket)),
     set_buckets db (buckets db ++ [row]) (id + 1)).

(** [delete_bucket]: events go with the bucket ([ON DELETE CASCADE]). *)
Definition delete_bucket (bucket_id : string) (db : Db) : Result unit * Db :=
  if bucket_exists db bucket_id then
    let db' := set_buckets db
                 (List.filter (fun r => negb (bool_decide (br_bucket_id r = bucket_id))) (buckets db))
                 (buckets_id_seq db) in
    (Ok tt, set_events db'
              (List.filter (fun e => negb (bool_decide (er_bucket_id e = bucket_id))) (events db))
              (events_id_seq db))
  else (Err (NoSuchBucket bucket_id), db).

(** [insert_events]: one [INSERT ... RETURNING id] per event; rows
    inserted before a failure stay. *)
Fixpoint insert_events (bucket_id : string) (evs : list Event) (db : Db)
  : Result (list Event) * Db :=
  match evs with
  | [] => (Ok [], db)
  | event :: rest =>
      match num_microseconds (ev_duration event) with
      | None => (Err (InternalError "Duration too large for microseconds"), db)
      | Some us =>
          let id := events_id_seq db in
          if bucket_exists db bucket_id then
            let row := mkEventRow id bucket_id (ev_timestamp event) us (ev_data event) in
            match insert_events bucket_id rest (set_events db (events db ++ [row]) (id + 1)) with
            | (Ok l, db') =>
                (Ok (mkEvent (Some id) (ev_timestamp event) (ev_duration event)
                       (ev_data event) :: l), db')
            | (Err e, db') => (Err e, db')
            end
          else
            (Err (InternalError "Failed to insert event: foreign key violation"),
             set_events db (events db) (id + 1))
      end
  end.

(** [ORDER BY timestamp DESC]: an insertion sort on the timestamp. *)
Fixpoint insert_desc (r : EventRow) (l : list EventRow) : list EventRow :=
  match l with
  | [] => [r]
  | x :: l' => if er_timestamp x <? er_timestamp r then r :: l else x :: insert_desc r l'
  end.

Fixpoint sort_desc (l : list EventRow) : list EventRow :=
  match l with
  | [] => []
  | x :: l' => insert_desc x (sort_desc l')
  end.

(** The [WHERE] clauses of the event queries. *)
Definition ends_after (start : Z) (r : EventRow) : bool :=
  start <=? er_timestamp r + er_duration r.
Definition starts_before (end_ : Z) (r : EventRow) : bool :=
  er_timestamp r <=? end_.

Definition in_bucket (bucket_id : string) (conds : list (EventRow -> bool))
    (r : EventRow) : bool :=
  bool_decide (er_bucket_id r = bucket_id) && forallb (fun c => c r) conds.

(** [SELECT id, timestamp, duration, data FROM events WHERE ...
    ORDER BY timestamp DESC [LIMIT l]]; a negative [LIMIT] is rejected
    by PostgreSQL. *)
Definition select_events (bucket_id : string) (conds : list (EventRow -> bool))
    (limit : option Z) (db : Db) : Result (list Event) * Db :=
  let rows := sort_desc (List.filter (in_bucket bucket_id conds) (events db)) in
  match limit with
  | None => (Ok (map row_to_event rows), db)
  | Some l =>
      if u64_as_i64 l <? 0
      then (Err (InternalError "Failed to query events: LIMIT must not be negative"), db)
      else (Ok (map row_to_event (firstn (Z.to_nat (u64_as_i64 l)) rows)), db)
  end.

(** [get_events]: the six arms of the source's [match]. *)
Definition get_events (bucket_id : string) (starttime_opt endtime_opt : option Z)
    (limit_opt : option Z) (db : Db) : Result (list Event) * Db :=
  match starttime_opt, endtime_opt, limit_opt with
  | Some start, Some end_, Some limit =>
      select_events bucket_id [ends_after start; starts_before end_] (Some limit) db
  | Some start, Some end_, None =>
      select_events bucket_id [ends_after start; starts_before end_] None db
  | Some start, None, Some limit =>
      select_events bucket_id [ends_after start] (Some limit) db
  | None, Some end_, Some limit =>
      select_events bucket_id [starts_before end_] (Some limit) db
  | None, None, Some limit =>
      select_events bucket_id [] (Some limit) db
  | _, _, _ =>
      select_events bucket_id [] None db
  end.

(** [get_event_count]: [SELECT COUNT] of the rows under the four arms. *)
Definition count_events (bucket_id : string) (conds : list (EventRow -> bool))
    (db : Db) : Result Z * Db :=
  (Ok (Z.of_nat (List.length (List.filter (in_bucket bucket_id conds) (events db)))), db).

Definition get_event_count (bucket_id : string) (starttime_opt endtime_opt : option Z)
    (db : Db) : Result Z * Db :=
  match starttime_opt, endtime_opt with
  | Some start, Some end_ => count_events bucket_id [ends_after start; starts_before end_] db
  | Some start, None => count_events bucket_id [ends_after start] db
  | None, Some end_ => count_events bucket_id [starts_before end_] db
  | None, None => count_events bucket_id [] db
  end.

Definition get_event (bucket_id : string) (event_id : Z) (db : Db) : Result Event * Db :=
  match List.filter (fun r => bool_decide (er_bucket_id r = bucket_id) && (er_id r =? event_id))
               (events db) with
  | r :: _ => (Ok (row_to_event r), db)
  | [] => (Err (InternalError "Event not found"), db)
  end.

Definition delete_events_by_id (bucket_id : string) (event_ids : list Z) (db : Db)
  : Result unit * Db :=
  match event_ids with
  | [] => (Ok tt, db)
  | _ =>
      (Ok tt, set_events db
                (List.filter (fun r => negb (bool_decide (er_bucket_id r = bucket_id)
                                        && existsb (Z.eqb (er_id r)) event_ids))
                        (events db))
                (events_id_seq db))
  end.

(** The id of the row [ORDER BY timestamp DESC, id DESC LIMIT 1] of a
    bucket. *)
Definition later_row (a b : EventRow) : EventRow :=
  if (er_timestamp a <? er_timestamp b)
     || ((er_timestamp a =? er_timestamp b) && (er_id a <? er_id b))
  then b else a.

Definition last_row (bucket_id : string) (db : Db) : option EventRow :=
  match List.filter (fun r => bool_decide (er_bucket_id r = bucket_id)) (events db) with
  | [] => None
  | r :: rs => Some (fold_left later_row rs r)
  end.

Definition replace_last_event (bucket_id : string) (event : Event) (db : Db)
  : Result unit * Db :=
  match num_microseconds (ev_duration event) with
  | None => (Err (InternalError "Duration too large for microseconds"), db)
  | Some us =>
      match last_row bucket_id db with
      | None => (Ok tt, db)
      | Some last =>
          (Ok tt, set_events db
                    (map (fun r => if bool_decide (er_bucket_id r = bucket_id)
                                      && (er_id r =? er_id last)
                                   then mkEventRow (er_id r) (er_bucket_id r)
                                          (ev_timestamp event) us (ev_data event)
                                   else r) (events db))
                    (events_id_seq db))
      end
  end.

(** Key-value store.  A value is held as its canonical JSON text, so
    [serde_json::from_str] followed by [serde_json::to_string] is the
    identity here. *)
Definition get_key_value (key : string) (db : Db) : Result string * Db :=
  match key_value db !! key with
  | Some v => (Ok v, db)
  | None => (Err (NoSuchKey key), db)
  end.

Definition set_key_value (key value : string) (db : Db) : Result unit * Db :=
  (Ok tt, set_key_value_tbl db (<[key := value]> (key_value db))).

Definition delete_key_value (key : string) (db : Db) : Result unit * Db :=
  (Ok tt, set_key_value_tbl db (delete key (key_value db))).

(** [SELECT key, value FROM key_value WHERE key LIKE $1]: the rows the
    [WHERE] keeps, or the error of the pattern. *)
Fixpoint like_rows (pattern : string) (rows : list (string * string))
  : option (list (string * string)) :=
  match rows with
  | [] => Some []
  | (k, v) :: rest =>
      match like k pattern, like_rows pattern rest with
      | Some true, Some l => Some ((k, v) :: l)
      | Some false, Some l => Some l
      | _, _ => None
      end
  end.

Definition settings_prefix : string := "settings.".

(** The loop of [get_key_values]: rows whose key lacks the prefix are
    skipped. *)
Definition collect_step (result : gmap string string) (row : string * string)
  : gmap string string :=
  let '(k, v) := row in
  if String.prefix settings_prefix k then <[k := v]> result else result.

Definition collect_settings (rows : list (string * string)) : gmap string string :=
  foldl collect_step ∅ rows.

Definition get_key_values (pattern : string) (db : Db)
  : Result (gmap string string) * Db :=
  match like_rows pattern (map_to_list (key_value db)) with
  | None => (Err (InternalError "Failed to get key values"), db)
  | Some rows => (Ok (collect_settings rows), db)
  end.

End postgres_helpers.

(* ------------------------------------------------------------------ *)
(** ** The SQL pool seen by the worker *)

(** The operations of postgres_helpers.rs that the worker calls, over
    the database state [St] they thread. *)
Class PgPool (St : Type) := {
  get_stored_buckets : St -> Result (gmap string Bucket) * St;
  create_bucket : Bucket -> St -> Result Bucket * St;
  delete_bucket : string -> St -> Result unit * St;
  insert_events : string -> list Event -> St -> Result (list Event) * St;
  get_events : string -> option Z -> option Z -> option Z -> St -> Result (list Event) * St;
  get_event : string -> Z -> St -> Result Event * St;
  get_event_count : string -> option Z -> option Z -> St -> Result Z * St;
  delete_events_by_id : string -> list Z -> St -> Result unit * St;
  replace_last_event : string -> Event -> St -> Result unit * St;
  get_key_values : string -> St -> Result (gmap string string) * St;
  get_key_value : string -> St -> Result string * St;
  set_key_value : string -> string -> St -> Result unit * St;
  delete_key_value : string -> St -> Result unit * St
}.

#[export] Instance postgres_pool : PgPool postgres_helpers.Db := {
  get_stored_buckets := postgres_helpers.get_stored_buckets;
  create_bucket := postgres_helpers.create_bucket;
  delete_bucket := postgres_helpers.delete_bucket;
  insert_events := postgres_helpers.insert_events;
  get_events := postgres_helpers.get_events;
  get_event := postgres_helpers.get_event;
  get_event_count := postgres_helpers.get_event_count;
  delete_events_by_id := postgres_helpers.delete_events_by_id;
  replace_last_event := postgres_helpers.replace_last_event;
  get_key_values := postgres_helpers.get_key_values;
  get_key_value := postgres_helpers.get_key_value;
  set_key_value := postgres_helpers.set_key_value;
  delete_key_value := postgres_helpers.delete_key_value
}.

(* ------------------------------------------------------------------ *)
(** ** The worker (worker.rs) *)

(** [DatastoreWorker] without its channel end. *)
Record DatastoreWorker := mkDatastoreWorker {
  legacy_import : bool;
  quit : bool;
  uncommitted_events : nat;
  commit : bool;
  last_heartbeat : gmap string (option Event)
}.

Definition DatastoreWorker_new (legacy_import : bool) : DatastoreWorker :=
  mkDatastoreWorker legacy_import false 0 false ∅.

Definition set_quit (w : DatastoreWorker) (b : bool) : DatastoreWorker :=
  mkDatastoreWorker (legacy_import w) b (uncommitted_events w) (commit w) (last_heartbeat w).
Definition set_commit (w : DatastoreWorker) (b : bool) : DatastoreWorker :=
  mkDatastoreWorker (legacy_import w) (quit w) (uncommitted_events w) b (last_heartbeat w).
Definition set_uncommitted (w : DatastoreWorker) (n : nat) : DatastoreWorker :=
  mkDatastoreWorker (legacy_import w) (quit w) n (commit w) (last_heartbeat w).
Definition set_last_heartbeat (w : DatastoreWorker) (m : gmap string (option Event))
  : DatastoreWorker :=
  mkDatastoreWorker (legacy_import w) (quit w) (uncommitted_events w) (commit w) m.

Section Worker.
Context {St : Type} `{!PgPool St}.

(** What [handle_request_postgres] returns: the response, and the
    worker, bucket cache and pool after the request. *)
Definition Outcome : Type :=
  (Result Response * DatastoreWorker * gmap string Bucket * St)%type.

(** [let last_event_opt = ...]: the memo entry if there is one,
    otherwise the tail read with [get_events(.., Some(1))] and [pop]. *)
Definition last_event_lookup (w : DatastoreWorker) (bucketname : string) (pool : St)
  : Result (option Event) * St :=
  match last_heartbeat w !! bucketname with
  | Some cached => (Ok cached, pool)
  | None =>
      match get_events bucketname None None (Some 1) pool with
      | (Ok events, pool') => (Ok (last events), pool')
      | (Err e, pool') => (Err e, pool')
      end
  end.

(** Insert [event] alone; [inserted.into_iter().next().unwrap_or(event)]. *)
Definition insert_one (bucketname : string) (event : Event) (pool : St)
  : Result Event * St :=
  match insert_events bucketname [event] pool with
  | (Ok inserted, pool') => (Ok (default event (head inserted)), pool')
  | (Err e, pool') => (Err e, pool')
  end.

(** [let merged_event = match last_event_opt { ... }]. *)
Definition merged_event_of (bucketname : string) (event : Event) (pulsetime : Z)
    (last_event_opt : option Event) (pool : St) : Result Event * St :=
  match last_event_opt with
  | Some last_event =>
      match heartbeat last_event event pulsetime with
      | Some merged =>
          match replace_last_event bucketname merged pool with
          | (Ok _, pool') => (Ok merged, pool')
          | (Err e, pool') => (Err e, pool')
          end
      | None => insert_one bucketname event pool
      end
  | None => insert_one bucketname event pool
  end.

(** The [Heartbeat] arm once [last_event_opt] is known. *)
Definition heartbeat_after_lookup (bucketname : string) (event : Event) (pulsetime : Z)
    (last_event_opt : option Event) (w : DatastoreWorker)
    (buckets_cache : gmap string Bucket) (pool : St) : Outcome :=
  match merged_event_of bucketname event pulsetime last_event_opt pool with
  | (Err e, pool') => (Err e, w, buckets_cache, pool')
  | (Ok merged_event, pool') =>
      let w1 := set_uncommitted w (S (uncommitted_events w)) in
      (Ok (REvent merged_event),
       set_last_heartbeat w1 (<[bucketname := Some merged_event]> (last_heartbeat w1)),
       buckets_cache, pool')
  end.

(** Lifts an adapter call whose success answers with [f]. *)
Definition answer {A} (r : Result A * St) (f : A -> Response) (w : DatastoreWorker)
    (buckets_cache : gmap string Bucket) : Outcome :=
  match r with
  | (Ok a, pool') => (Ok (f a), w, buckets_cache, pool')
  | (Err e, pool') => (Err e, w, buckets_cache, pool')
  end.

Definition handle_request_postgres (request : Command) (w : DatastoreWorker)
    (buckets_cache : gmap string Bucket) (pool : St) : Outcome :=
  match request with
  | CreateBucket bucket =>
      match create_bucket bucket pool with
      | (Ok bucket', pool') =>
          (Ok REmpty, set_commit w true, <[b_id bucket' := bucket']> buckets_cache, pool')
      | (Err e, pool') => (Err e, w, buckets_cache, pool')
      end
  | DeleteBucket bucketname =>
      match delete_bucket bucketname pool with
      | (Ok _, pool') =>
          (Ok REmpty, set_commit w true, delete bucketname buckets_cache, pool')
      | (Err e, pool') => (Err e, w, buckets_cache, pool')
      end
  | GetBucket bucketname =>
      match buckets_cache !! bucketname with
      | Some bucket => (Ok (RBucket bucket), w, buckets_cache, pool)
      | None => (Err (NoSuchBucket bucketname), w, buckets_cache, pool)
      end
  | GetBuckets => (Ok (RBucketMap buckets_cache), w, buckets_cache, pool)
  | InsertEvents bucketname events =>
      match insert_events bucketname events pool with
      | (Ok inserted_events, pool') =>
          let w1 := set_uncommitted w (uncommitted_events w + List.length inserted_events)%nat in
          (Ok (REventList inserted_events),
           set_last_heartbeat w1 (<[bucketname := None]> (last_heartbeat w1)),
           buckets_cache, pool')
      | (Err e, pool') => (Err e, w, buckets_cache, pool')
      end
  | Heartbeat bucketname event pulsetime =>
      match last_event_lookup w bucketname pool with
      | (Err e, pool') => (Err e, w, buckets_cache, pool')
      | (Ok last_event_opt, pool') =>
          heartbeat_after_lookup bucketname event pulsetime last_event_opt w buckets_cache pool'
      end
  | GetEvent bucketname event_id =>
      answer (get_event bucketname event_id pool) REvent w buckets_cache
  | GetEvents bucketname starttime_opt endtime_opt limit_opt =>
      answer (get_events bucketname starttime_opt endtime_opt limit_opt pool)
        REventList w buckets_cache
  | GetEventCount bucketname starttime_opt endtime_opt =>
      answer (get_event_count bucketname starttime_opt endtime_opt pool)
        RCount w buckets_cache
  | DeleteEventsById bucketname event_ids =>
      answer (delete_events_by_id bucketname event_ids pool) (fun _ => REmpty)
        w buckets_cache
  | ForceCommit => (Ok REmpty, set_commit w true, buckets_cache, pool)
  | GetKeyValues pattern =>
      answer (get_key_values pattern pool) RKeyValues w buckets_cache
  | SetKeyValue key data =>
      answer (set_key_value key data pool) (fun _ => REmpty) w buckets_cache
  | GetKeyValue key =>
      answer (get_key_value key pool) RKeyValue w buckets_cache
  | DeleteKeyValue key =>
      answer (delete_key_value key pool) (fun _ => REmpty) w buckets_cache
  | Close => (Ok REmpty, set_quit w true, buckets_cache, pool)
  end.

(** The commit cycle of [work_loop_postgres].  Times are microseconds;
    [now] is the clock read after the response is sent. *)
Definition commit_interval_passed (last_commit_time now : Z) : bool :=
  15 * 1000000 <? now - last_commit_time.

Definition cycle_ends (w : DatastoreWorker) (last_commit_time now : Z) : bool :=
  commit w || commit_interval_passed last_commit_time now
  || (100 <? uncommitted_events w)%nat || quit w.

(** One turn of the inner loop: handle, respond, decide to break. *)
Definition inner_step (last_commit_time : Z) (request : Command) (now : Z)
    (w : DatastoreWorker) (buckets_cache : gmap string Bucket) (pool : St)
  : Outcome * bool :=
  let '(response, w', cache', pool') :=
    handle_request_postgres request w buckets_cache pool in
  ((response, w', cache', pool'), cycle_ends w' last_commit_time now).

(** The inner loop over the inbox; an empty inbox is the closed channel
    ([poll] fails: quit and break). *)
Fixpoint inner_loop (last_commit_time : Z) (inbox : list (Command * Z))
    (w : DatastoreWorker) (buckets_cache : gmap string Bucket) (pool : St)
  : list (Result Response) * DatastoreWorker * gmap string Bucket * St
    * list (Command * Z) :=
  match inbox with
  | [] => ([], set_quit w true, buckets_cache, pool, [])
  | (request, now) :: rest =>
      let '((response, w', cache', pool'), brk) :=
        inner_step last_commit_time request now w buckets_cache pool in
      if brk then ([response], w', cache', pool', rest)
      else
        let '(responses, w'', cache'', pool'', rest') :=
          inner_loop last_commit_time rest w' cache' pool' in
        (response :: responses, w'', cache'', pool'', rest')
  end.

(** The head of each cycle: [uncommitted_events = 0; commit = false]. *)
Definition begin_cycle (w : DatastoreWorker) : DatastoreWorker :=
  set_commit (set_uncommitted w 0) false.

(** The outer loop, one cycle per start time in [cycle_starts]. *)
Fixpoint cycles (cycle_starts : list Z) (inbox : list (Command * Z))
    (w : DatastoreWorker) (buckets_cache : gmap string Bucket) (pool : St)
  : list (Result Response) * DatastoreWorker * gmap string Bucket * St :=
  match cycle_starts with
  | [] => ([], w, buckets_cache, pool)
  | last_commit_time :: later =>
      let '(responses, w', cache', pool', rest) :=
        inner_loop last_commit_time inbox (begin_cycle w) buckets_cache pool in
      if quit w' then (responses, w', cache', pool')
      else
        let '(responses', w'', cache'', pool'') := cycles later rest w' cache' pool' in
        (responses ++ responses', w'', cache'', pool'')
  end.

(** [work_loop_postgres] after the pool is open and the migrations ran:
    load the bucket cache ([unwrap]: [None] is the panic), then cycle. *)
Definition work_loop_postgres (cycle_starts : list Z) (inbox : list (Command * Z))
    (w : DatastoreWorker) (pool : St)
  : option (list (Result Response) * DatastoreWorker * gmap string Bucket * St) :=
  match get_stored_buckets pool with
  | (Ok buckets_cache, pool') => Some (cycles cycle_starts inbox w buckets_cache pool')
  | (Err _, _) => None
  end.

End Worker.

(* ------------------------------------------------------------------ *)
(** ** Construction ([Datastore::new], [Datastore::new_postgres], main.rs) *)

Definition postgres_scheme : string := "postgresql://".

(** [Datastore::new]: [None] is the panic on a non-PostgreSQL string;
    otherwise the method handed to the worker thread. *)
Definition Datastore_new (dbpath : string) (legacy_import : bool) : option DatastoreMethod :=
  if String.prefix postgres_scheme dbpath then Some (Postgres dbpath) else None.

Definition Datastore_new_postgres (connection_string : string) (legacy_import : bool)
  : option DatastoreMethod :=
  Some (Postgres connection_string).

(** main.rs: the [--dbpath] option must carry the scheme, otherwise
    [DATABASE_URL] is used; then [Datastore::new]. *)
Definition main_datastore (dbpath database_url : option string) : option DatastoreMethod :=
  let conn := match dbpath with
              | Some p => if String.prefix postgres_scheme p then Some p else None
              | None => database_url
              end in
  match conn with
  | Some c => Datastore_new c false
  | None => None
  end.

(** [str::find] for one character, and the slice [&s[n..]]. *)
Fixpoint find_char (c : ascii) (s : string) : option nat :=
  match s with
  | EmptyString => None
  | String c' s' => if ascii_dec c c' then Some 0%nat else option_map S (find_char c s')
  end.

Fixpoint str_drop (n : nat) (s : string) : string :=
  match n, s with
  | O, _ => s
  | S n', EmptyString => EmptyString
  | S n', String _ s' => str_drop n' s'
  end.

(** main.rs: the connection string as logged, with the credentials
    masked. *)
Definition mask_connection (db_connection_string : string) : string :=
  match find_char "@" db_connection_string with
  | Some at_pos => String.append "postgresql://***@" (str_drop (S at_pos) db_connection_string)
  | None => "postgresql://***"
  end.

(* ------------------------------------------------------------------ *)
(** ** Notions used by the further properties *)

(** [ORDER BY timestamp DESC] as a relation between neighbours. *)
Definition later_or_equal (a b : postgres_helpers.EventRow) : Prop :=
  postgres_helpers.er_timestamp b <= postgres_helpers.er_timestamp a.

(** [a] comes no later than [b] under [ORDER BY timestamp, id]. *)
Definition row_not_later (a b : postgres_helpers.EventRow) : Prop :=
  postgres_helpers.er_timestamp a < postgres_helpers.er_timestamp b \/
  (postgres_helpers.er_timestamp a = postgres_helpers.er_timestamp b /\
   postgres_helpers.er_id a <= postgres_helpers.er_id b).

(** The row and the event [insert_events] makes of the [i]-th event of
    a batch when the id sequence stood at [seq] before the batch. *)
Definition inserted_row (bucket_id : string) (seq : Z) (i : nat) (ev : Event)
  : postgres_helpers.EventRow :=
  postgres_helpers.mkEventRow (seq + Z.of_nat i) bucket_id (ev_timestamp ev)
    (ev_duration ev) (ev_data ev).

Definition inserted_event (seq : Z) (i : nat) (ev : Event) : Event :=
  mkEvent (Some (seq + Z.of_nat i)) (ev_timestamp ev) (ev_duration ev) (ev_data ev).

(** The client half of each [Datastore] method: whether the method that
    sent [request] panics on the reply [r].  Every method panics on a
    reply variant it does not expect, except [create_bucket] (any [Ok])
    and [get_buckets] (an [InternalError]); [close] also panics on
    [Err]. *)
Definition client_panics (request : Command) (r : Result Response) : bool :=
  match request, r with
  | CreateBucket _, _ => false
  | GetBuckets, Ok (RBucketMap _) => false
  | GetBuckets, Ok _ => false
  | Close, Err _ => true
  | _, Err _ => false
  | (DeleteBucket _ | ForceCommit | DeleteEventsById _ _ | SetKeyValue _ _
     | DeleteKeyValue _ | Close), Ok REmpty => false
  | GetBucket _, Ok (RBucket _) => false
  | (InsertEvents _ _ | GetEvents _ _ _ _), Ok (REventList _) => false
  | (Heartbeat _ _ _ | GetEvent _ _), Ok (REvent _) => false
  | GetEventCount _ _ _, Ok (RCount _) => false
  | GetKeyValues _, Ok (RKeyValues _) => false
  | GetKeyValue _, Ok (RKeyValue _) => false
  | _, Ok _ => true
  end.

(* ------------------------------------------------------------------ *)
(** ** Concrete states used by the witnesses and counterexamples *)

Module Fixtures.
Import postgres_helpers.

Definition empty_db : Db := mkDb [] [] ∅ 1 1 0.

Definition bucket_named (id : string) : Bucket :=
  mkBucket None id "currentwindow" "aw-watcher-window" "host" None ∅
    (mkBucketMetadata None None) None None.

(** The JSON text of a string value: the string between double quotes. *)
Definition json_str (s : string) : string :=
  String (ascii_of_nat 34) (String.append s (String (ascii_of_nat 34) EmptyString)).

Definition app_x : JsonMap := <["app" := json_str "x"]> ∅.

(** Spec scenario 1: [E1] at 00:00:00, a heartbeat at 00:00:05 with the
    same data and a pulsetime of 10 s. *)
Definition E1 : Event := mkEvent None 0 0 app_x.
Definition E2 : Event := mkEvent None 5000000 0 app_x.

Definition after_create : Outcome :=
  handle_request_postgres (CreateBucket (bucket_named "win"))
    (DatastoreWorker_new false) ∅ empty_db.

Definition after_insert : Outcome :=
  let '(_, w, c, p) := after_create in
  handle_request_postgres (InsertEvents "win" [E1]) w c p.

Definition after_heartbeat : Outcome :=
  let '(_, w, c, p) := after_insert in
  handle_request_postgres (Heartbeat "win" E2 10000000) w c p.

(** Spec scenario 4: bucket [b] holding one event over [0 s, 10 s]. *)
Definition db_b : Db :=
  mkDb [mkBucketRow 1 "b" "b" "t" "c" "h" 0 ∅]
       [mkEventRow 1 "b" 0 10000000 ∅] ∅ 2 2 0.

(** Two settings rows and one cache row (spec scenario 5). *)
Definition db_kv : Db :=
  mkDb [] [] (<["settings.theme" := json_str "dark"]> (<["cache.foo" := "1"]> ∅)) 1 1 0.

End Fixtures.

(* ------------------------------------------------------------------ *)
(** ** Claims *)

(** C1: the heartbeat merge returns [Some] iff the data agree and the
    gap from the end of [prev] to [next] lies in [0, pulsetime]; the
    merged event keeps [prev]'s id, timestamp and data and ends where
    [next] ends. *)
Theorem heartbeat_merge_spec (prev next : Event) (pulsetime : Z) :
  ((exists merged, heartbeat prev next pulsetime = Some merged) <->
   (ev_data next = ev_data prev /\
    0 <= ev_timestamp next - (ev_timestamp prev + ev_duration prev) <= pulsetime))
  /\ match heartbeat prev next pulsetime with
     | Some merged =>
         ev_id merged = ev_id prev /\ ev_timestamp merged = ev_timestamp prev /\
         ev_duration merged = (ev_timestamp next + ev_duration next) - ev_timestamp prev /\
         ev_data merged = ev_data prev
     | None => True
     end.
Proof.
  unfold heartbeat.
  set (gap := ev_timestamp next - (ev_timestamp prev + ev_duration prev)).
  case_bool_decide as Hd;
    destruct (Z.leb_spec 0 gap); destruct (Z.leb_spec gap pulsetime); simpl;
    (split; [split; [intros [m Hm]; try discriminate | intros Hc] |]);
    try (split; [assumption | lia]);
    try (exfalso; destruct Hc as [Hc1 Hc2]; first [exact (Hd Hc1) | lia]);
    try (eexists; reflexivity);
    try (repeat split; reflexivity);
    trivial.
Qed.

(** C2 (does not hold): spec scenario 1 preceded by a bulk insert.
    [InsertEvents] leaves the memo entry [Some None]; the next heartbeat
    takes that [None] as "no previous event" instead of reading the
    tail, so it inserts a second event (id 2) where the merge into [E1]
    (id 1, 5 s) was due. *)
Theorem heartbeat_after_insert_events_ignores_tail :
  (let '(_, w, _, _) := Fixtures.after_insert in last_heartbeat w !! "win" = Some None) /\
  (let '(r, _, _, p) := Fixtures.after_heartbeat in
   r = Ok (REvent (mkEvent (Some 2) 5000000 0 Fixtures.app_x)) /\
   List.length (postgres_helpers.events p) = 2%nat).
Proof. vm_compute. split; [reflexivity | split; reflexivity]. Qed.

(** C3 (does not hold): with a start bound only and no limit,
    [get_events] falls into the catch-all arm and applies no filter: the
    event over [0 s, 10 s] is returned for [start = 11 s]. *)
Theorem get_events_start_only_unfiltered :
  postgres_helpers.get_events "b" (Some 11000000) None None Fixtures.db_b =
    (Ok [mkEvent (Some 1) 0 10000000 ∅], Fixtures.db_b) /\
  0 + 10000000 < 11000000.
Proof. split; [vm_compute; reflexivity | lia]. Qed.

(** C7 (does not hold): on the same state, the worker counts 0 events
    from 11 s on but lists 1. *)
Theorem event_count_differs_from_get_events :
  (let '(r, _, _, _) :=
     handle_request_postgres (GetEventCount "b" (Some 11000000) None)
       (DatastoreWorker_new false) ∅ Fixtures.db_b in r) = Ok (RCount 0) /\
  (let '(r, _, _, _) :=
     handle_request_postgres (GetEvents "b" (Some 11000000) None None)
       (DatastoreWorker_new false) ∅ Fixtures.db_b in r)
    = Ok (REventList [mkEvent (Some 1) 0 10000000 ∅]).
Proof. split; vm_compute; reflexivity. Qed.

(** C9 (does not hold as stated): [Datastore::new_postgres] builds a
    datastore over a string without the [postgresql://] prefix. *)
Theorem new_postgres_accepts_other_scheme :
  Datastore_new_postgres "mysql://localhost/aw" false = Some (Postgres "mysql://localhost/aw") /\
  String.prefix postgres_scheme "mysql://localhost/aw" = false.
Proof. split; reflexivity. Qed.

(** C9, amended: [Datastore::new], and with it the server's startup in
    main.rs, rejects every connection string without the
    [postgresql://] prefix; [Datastore::new_postgres] checks nothing. *)
Theorem datastore_new_requires_postgres_scheme (s : string) (legacy : bool)
    (dbpath database_url : option string) :
  match Datastore_new s legacy with
  | Some m => m = Postgres s /\ String.prefix postgres_scheme s = true
  | None => String.prefix postgres_scheme s = false
  end /\
  match main_datastore dbpath database_url with
  | Some (Postgres c) => String.prefix postgres_scheme c = true
  | None => True
  end /\
  Datastore_new_postgres s legacy = Some (Postgres s).
Proof.
  unfold Datastore_new, main_datastore, Datastore_new_postgres.
  split; [destruct (String.prefix postgres_scheme s); auto |].
  split; [| reflexivity].
  destruct dbpath as [p|].
  - destruct (String.prefix postgres_scheme p) eqn:Hp; [| exact I].
    unfold Datastore_new. rewrite Hp. exact Hp.
  - destruct database_url as [c|]; [| exact I].
    unfold Datastore_new. destruct (String.prefix postgres_scheme c) eqn:Hc; auto.
Qed.

Section WorkerClaims.
Context {St : Type} `{!PgPool St}.

(** C4: the bucket cache follows every successful [CreateBucket]
    (insert) and [DeleteBucket] (remove); [GetBucket] and [GetBuckets]
    answer from the cache alone, leaving pool and worker untouched, and
    [GetBucket] on an absent id is [NoSuchBucket id]; no other command
    changes the cache. *)
Theorem bucket_cache_follows_requests (request : Command) (w : DatastoreWorker)
    (buckets_cache : gmap string Bucket) (pool : St) :
  let '(r, w', cache', pool') := handle_request_postgres request w buckets_cache pool in
  match request with
  | CreateBucket bucket =>
      match create_bucket bucket pool with
      | (Ok bucket', p) =>
          r = Ok REmpty /\ cache' = <[b_id bucket' := bucket']> buckets_cache /\ pool' = p
      | (Err e, p) => r = Err e /\ cache' = buckets_cache /\ pool' = p
      end
  | DeleteBucket bucketname =>
      match delete_bucket bucketname pool with
      | (Ok _, p) => r = Ok REmpty /\ cache' = delete bucketname buckets_cache /\ pool' = p
      | (Err e, p) => r = Err e /\ cache' = buckets_cache /\ pool' = p
      end
  | GetBucket bucketname =>
      pool' = pool /\ cache' = buckets_cache /\ w' = w /\
      r = match buckets_cache !! bucketname with
          | Some bucket => Ok (RBucket bucket)
          | None => Err (NoSuchBucket bucketname)
          end
  | GetBuckets =>
      pool' = pool /\ cache' = buckets_cache /\ w' = w /\ r = Ok (RBucketMap buckets_cache)
  | _ => cache' = buckets_cache
  end.
Proof.
  destruct request; cbn [handle_request_postgres];
    unfold answer, heartbeat_after_lookup; repeat case_match; simplify_eq; auto.
Qed.

(** C5: one turn of the inner loop breaks exactly when, after the
    request, [commit] holds, more than 15 s have passed since the cycle
    began, more than 100 events are uncommitted, or [quit] holds;
    [commit] is raised only by a successful [CreateBucket] or
    [DeleteBucket] and by [ForceCommit]; [uncommitted_events] grows by
    the number of events a successful [InsertEvents] inserted and by 1
    per successful [Heartbeat]; [quit] is raised only by [Close]. *)
Theorem commit_cycle_step (last_commit_time now : Z) (request : Command)
    (w : DatastoreWorker) (buckets_cache : gmap string Bucket) (pool : St) :
  let '((r, w', _, _), brk) :=
    inner_step last_commit_time request now w buckets_cache pool in
  brk = (commit w' || (15 * 1000000 <? now - last_commit_time)
         || (100 <? uncommitted_events w')%nat || quit w') /\
  commit w' = (commit w || match request, r with
                           | CreateBucket _, Ok _ | DeleteBucket _, Ok _ => true
                           | ForceCommit, _ => true
                           | _, _ => false
                           end) /\
  uncommitted_events w' = (uncommitted_events w + match request, r with
                                                  | InsertEvents _ _, Ok (REventList l) => List.length l
                                                  | Heartbeat _ _ _, Ok _ => 1
                                                  | _, _ => 0
                                                  end)%nat /\
  quit w' = (quit w || match request with Close => true | _ => false end).
Proof.
  unfold inner_step, cycle_ends, commit_interval_passed.
  destruct request; cbn [handle_request_postgres];
    unfold answer, heartbeat_after_lookup; repeat case_match; simplify_eq; cbn;
    rewrite ?orb_true_r, ?orb_false_r, ?Nat.add_0_r, ?Nat.add_1_r;
    repeat split; auto.
Qed.

(** C6: when the storage call of a heartbeat fails ([replace_last_event]
    on the merge path, [insert_events] on the insert path), the request
    returns that error and the worker, memo included, is left as it
    was. *)
Theorem heartbeat_storage_failure_keeps_memo (bucketname : string) (event : Event)
    (pulsetime : Z) (w : DatastoreWorker) (buckets_cache : gmap string Bucket)
    (pool pool1 pool2 : St) (last_event_opt : option Event) (e : DatastoreError) :
  last_event_lookup w bucketname pool = (Ok last_event_opt, pool1) ->
  ((exists last merged, last_event_opt = Some last /\
      heartbeat last event pulsetime = Some merged /\
      replace_last_event bucketname merged pool1 = (Err e, pool2)) \/
   ((last_event_opt = None \/
       exists last, last_event_opt = Some last /\ heartbeat last event pulsetime = None) /\
      insert_events bucketname [event] pool1 = (Err e, pool2))) ->
  handle_request_postgres (Heartbeat bucketname event pulsetime) w buckets_cache pool
    = (Err e, w, buckets_cache, pool2).
Proof.
  intros Hlookup Hfail. cbn [handle_request_postgres]. rewrite Hlookup.
  unfold heartbeat_after_lookup, merged_event_of, insert_one.
  destruct Hfail as [(last & merged & -> & Hmerge & Hrep)
                    | ([-> | (last & -> & Hmerge)] & Hins)].
  - rewrite Hmerge, Hrep. reflexivity.
  - rewrite Hins. reflexivity.
  - rewrite Hmerge, Hins. reflexivity.
Qed.

(** C10: no command but [InsertEvents] and [Heartbeat] writes the
    heartbeat memo (in particular [DeleteBucket] leaves it); and a
    heartbeat on a bucket whose memo holds [Some e] proceeds with [e] as
    the previous event, whatever the database holds. *)
Theorem heartbeat_memo_frame (request : Command) (w : DatastoreWorker)
    (buckets_cache : gmap string Bucket) (pool : St)
    (bucketname : string) (event : Event) (pulsetime : Z) :
  (let '(_, w', _, _) := handle_request_postgres request w buckets_cache pool in
   match request with
   | InsertEvents _ _ | Heartbeat _ _ _ => True
   | _ => last_heartbeat w' = last_heartbeat w
   end) /\
  match last_heartbeat w !! bucketname with
  | Some (Some e) =>
      handle_request_postgres (Heartbeat bucketname event pulsetime) w buckets_cache pool
      = heartbeat_after_lookup bucketname event pulsetime (Some e) w buckets_cache pool
  | _ => True
  end.
Proof.
  split.
  - destruct request; cbn [handle_request_postgres];
      unfold answer; repeat case_match; simplify_eq; auto.
  - destruct (last_heartbeat w !! bucketname) as [[e|]|] eqn:Hm; auto.
    cbn [handle_request_postgres]. unfold last_event_lookup. rewrite Hm. reflexivity.
Qed.

End WorkerClaims.

(** Witness for C6: a heartbeat on a bucket that does not exist.  The
    tail read finds nothing, and the insert breaks the foreign key. *)
Lemma heartbeat_storage_failure_keeps_memo_witness :
  last_event_lookup (DatastoreWorker_new false) "nope" Fixtures.empty_db
    = (Ok None, Fixtures.empty_db) /\
  postgres_helpers.insert_events "nope" [Fixtures.E1] Fixtures.empty_db
    = (Err (InternalError "Failed to insert event: foreign key violation"),
       postgres_helpers.set_events Fixtures.empty_db [] 2) /\
  handle_request_postgres (Heartbeat "nope" Fixtures.E1 10000000)
    (DatastoreWorker_new false) ∅ Fixtures.empty_db
  = (Err (InternalError "Failed to insert event: foreign key violation"),
     DatastoreWorker_new false, ∅, postgres_helpers.set_events Fixtures.empty_db [] 2).
Proof.
  assert (h1 : last_event_lookup (DatastoreWorker_new false) "nope" Fixtures.empty_db
               = (Ok None, Fixtures.empty_db)) by (vm_compute; reflexivity).
  assert (h2 : postgres_helpers.insert_events "nope" [Fixtures.E1] Fixtures.empty_db
               = (Err (InternalError "Failed to insert event: foreign key violation"),
                  postgres_helpers.set_events Fixtures.empty_db [] 2))
    by (vm_compute; reflexivity).
  split; [exact h1 | split; [exact h2 |]].
  exact (heartbeat_storage_failure_keeps_memo "nope" Fixtures.E1 10000000
           (DatastoreWorker_new false) ∅ Fixtures.empty_db Fixtures.empty_db
           (postgres_helpers.set_events Fixtures.empty_db [] 2) None
           (InternalError "Failed to insert event: foreign key violation")
           h1 (or_intror (conj (or_introl eq_refl) h2))).
Defined.

(** Helper lemmas for the key-value listing. *)
Lemma like_rows_filter (pattern : string) (l rows : list (string * string)) :
  postgres_helpers.like_rows pattern l = Some rows ->
  rows = List.filter (fun kv => bool_decide (like kv.1 pattern = Some true)) l.
Proof.
  revert rows. induction l as [|[k v] l IH]; intros rows H; simpl in *.
  - injection H as <-. reflexivity.
  - destruct (like k pattern) as [[|]|]; destruct (postgres_helpers.like_rows pattern l) as [l'|];
      try discriminate; injection H as <-; rewrite (IH l' eq_refl); reflexivity.
Qed.

Lemma like_rows_error (pattern : string) (l : list (string * string)) :
  postgres_helpers.like_rows pattern l = None ->
  exists k v, In (k, v) l /\ like k pattern = None.
Proof.
  induction l as [|[k v] l IH]; simpl; [discriminate|].
  destruct (like k pattern) as [[|]|] eqn:Hk;
    destruct (postgres_helpers.like_rows pattern l) as [l'|]; try discriminate;
    intros _;
    first [ exists k, v; split; [left; reflexivity | exact Hk]
          | destruct (IH eq_refl) as (k' & v' & Hin & Hl);
            exists k', v'; split; [right; exact Hin | exact Hl] ].
Qed.

Lemma NoDup_map_fst_filter {A B} (f : A * B -> bool) (l : list (A * B)) :
  List.NoDup (map fst l) -> List.NoDup (map fst (List.filter f l)).
Proof.
  induction l as [|[a b] l IH]; simpl; intros Hnd; [constructor|].
  inversion Hnd as [|? ? Hnotin Hnd']; subst.
  destruct (f (a, b)); simpl; [constructor|]; auto.
  intros Hin. apply Hnotin.
  apply in_map_iff in Hin as ([a' b'] & Heq & Hin). simpl in Heq; subst.
  apply filter_In in Hin as [Hin _]. apply (in_map fst _ _ Hin).
Qed.

Lemma collect_step_fold (rows : list (string * string)) (acc : gmap string string)
    (k v : string) :
  List.NoDup (map fst rows) ->
  (foldl postgres_helpers.collect_step acc rows !! k = Some v <->
   (In (k, v) rows /\ String.prefix postgres_helpers.settings_prefix k = true) \/
   (acc !! k = Some v /\
    (String.prefix postgres_helpers.settings_prefix k = false \/ ~ In k (map fst rows)))).
Proof.
  revert acc. induction rows as [|[k1 v1] rows IH]; intros acc Hnd; simpl.
  - split; [intros H; right; auto | intros [[[] _] | [H _]]; exact H].
  - inversion Hnd as [|? ? Hnotin Hnd']; subst.
    rewrite IH by exact Hnd'. unfold postgres_helpers.collect_step.
    destruct (decide (k = k1)) as [->|Hne].
    + assert (Hr : forall v', ~ In (k1, v') rows)
        by (intros v' Hin; apply Hnotin, (in_map fst _ _ Hin)).
      destruct (String.prefix postgres_helpers.settings_prefix k1) eqn:Hp.
      * rewrite lookup_insert_eq. split.
        -- intros [[Hin _] | [Hs _]]; [exfalso; exact (Hr _ Hin)|].
           injection Hs as ->. left; split; [left; reflexivity | reflexivity].
        -- intros [[[Heq | Hin] _] | [_ [Hf | Hn]]].
           ++ injection Heq as ->. right. split; [reflexivity | right; exact Hnotin].
           ++ exfalso; exact (Hr _ Hin).
           ++ discriminate.
           ++ exfalso; apply Hn; left; reflexivity.
      * split.
        -- intros [[_ Hf] | [Hs _]]; [discriminate|]. right. split; [exact Hs | left; reflexivity].
        -- intros [[_ Hf] | [Hs _]]; [discriminate|]. right. split; [exact Hs | left; reflexivity].
    + assert (Hacc : (if String.prefix postgres_helpers.settings_prefix k1
                      then <[k1:=v1]> acc else acc) !! k = acc !! k)
        by (destruct (String.prefix _ k1); [apply lookup_insert_ne; congruence | reflexivity]).
      rewrite Hacc. split.
      * intros [[Hin Hp] | [Hs Hn]]; [left; split; [right|]; auto|].
        right. split; [exact Hs|]. destruct Hn as [Hf | Hn]; [left; exact Hf|].
        right. intros [Heq|Hin]; [congruence | contradiction].
      * intros [[[Heq | Hin] Hp] | [Hs Hn]]; [congruence | left; auto |].
        right. split; [exact Hs|]. destruct Hn as [Hf | Hn]; [left; exact Hf|].
        right. intros Hin; apply Hn; right; exact Hin.
Qed.

Lemma map_fst_fmap {A B} (l : list (A * B)) : map fst l = l.*1.
Proof. induction l as [|x l IH]; simpl; [reflexivity | rewrite IH; reflexivity]. Qed.

(** C8: through the worker, [GetKeyValues pattern] returns exactly the
    stored pairs whose key matches [pattern] under [LIKE] and starts
    with [settings.]; it fails only when the pattern is malformed for
    some stored key. *)
Theorem get_key_values_settings_only (pattern : string) (w : DatastoreWorker)
    (buckets_cache : gmap string Bucket) (db : postgres_helpers.Db) :
  let '(r, _, _, db') := handle_request_postgres (GetKeyValues pattern) w buckets_cache db in
  db' = db /\
  match r with
  | Ok (RKeyValues result) =>
      forall k v, result !! k = Some v <->
        postgres_helpers.key_value db !! k = Some v /\ like k pattern = Some true /\
        String.prefix postgres_helpers.settings_prefix k = true
  | Ok _ => False
  | Err _ => exists k, is_Some (postgres_helpers.key_value db !! k) /\ like k pattern = None
  end.
Proof.
  cbn [handle_request_postgres get_key_values postgres_pool]. unfold answer.
  unfold postgres_helpers.get_key_values.
  destruct (postgres_helpers.like_rows pattern (map_to_list (postgres_helpers.key_value db)))
    as [rows|] eqn:Hrows.
  - split; [reflexivity|]. intros k v.
    pose proof (like_rows_filter _ _ _ Hrows) as ->.
    unfold postgres_helpers.collect_settings.
    rewrite collect_step_fold.
    2: { apply NoDup_map_fst_filter. rewrite map_fst_fmap. apply NoDup_ListNoDup, NoDup_fst_map_to_list. }
    rewrite lookup_empty, filter_In. split.
    + intros [[[Hin Hl] Hp] | [Hs _]]; [|discriminate].
      apply bool_decide_eq_true in Hl.
      split; [apply elem_of_map_to_list, list_elem_of_In, Hin | auto].
    + intros (Hs & Hl & Hp). left. split; [split|exact Hp].
      * apply list_elem_of_In, elem_of_map_to_list, Hs.
      * apply bool_decide_eq_true. exact Hl.
  - split; [reflexivity|].
    destruct (like_rows_error _ _ Hrows) as (k & v & Hin & Hl).
    exists k. split; [| exact Hl].
    exists v. apply elem_of_map_to_list, list_elem_of_In, Hin.
Qed.

(** Spec scenario 5: listing with [%] returns the settings row only. *)
Example get_key_values_scenario :
  (let '(r, _, _, _) :=
     handle_request_postgres (GetKeyValues "%") (DatastoreWorker_new false) ∅ Fixtures.db_kv in r)
  = Ok (RKeyValues (<["settings.theme" := Fixtures.json_str "dark"]> ∅)).
Proof. vm_compute. reflexivity. Qed.

(* ------------------------------------------------------------------ *)
(** ** Further properties of the event queries *)

Module EventQueries.
Import postgres_helpers.

Lemma insert_desc_hd (x r : EventRow) (l : list EventRow) :
  HdRel later_or_equal x l -> er_timestamp r <= er_timestamp x ->
  HdRel later_or_equal x (insert_desc r l).
Proof.
  destruct l as [|y l]; simpl; intros Hx Hr.
  - constructor. exact Hr.
  - destruct (Z.ltb_spec (er_timestamp y) (er_timestamp r)); constructor; [exact Hr|].
    inversion Hx; assumption.
Qed.

Lemma insert_desc_sorted (r : EventRow) (l : list EventRow) :
  Sorted later_or_equal l -> Sorted later_or_equal (insert_desc r l).
Proof.
  induction l as [|x l IH]; simpl; intros Hs.
  - repeat constructor.
  - inversion Hs as [|? ? Hs' Hhd]; subst.
    destruct (Z.ltb_spec (er_timestamp x) (er_timestamp r)).
    + constructor; [exact Hs | constructor; unfold later_or_equal; lia].
    + constructor; [exact (IH Hs') | apply insert_desc_hd; [exact Hhd | lia]].
Qed.

Lemma sort_desc_sorted (l : list EventRow) : Sorted later_or_equal (sort_desc l).
Proof. induction l; simpl; [constructor | apply insert_desc_sorted; assumption]. Qed.

Lemma insert_desc_In (r x : EventRow) (l : list EventRow) :
  In x (insert_desc r l) <-> In x (r :: l).
Proof.
  induction l as [|y l IH]; simpl; [tauto|].
  destruct (er_timestamp y <? er_timestamp r); simpl; [tauto | rewrite IH; simpl; tauto].
Qed.

Lemma sort_desc_In (x : EventRow) (l : list EventRow) : In x (sort_desc l) <-> In x l.
Proof.
  induction l as [|y l IH]; simpl; [tauto|]. rewrite insert_desc_In. simpl. rewrite IH. tauto.
Qed.

Lemma sort_desc_length (l : list EventRow) : List.length (sort_desc l) = List.length l.
Proof.
  assert (Hi : forall r l', List.length (insert_desc r l') = S (List.length l')).
  { intros r l'. induction l' as [|y l' IH]; simpl; [reflexivity|].
    destruct (_ <? _); simpl; [reflexivity | rewrite IH; reflexivity]. }
  induction l; simpl; [reflexivity | rewrite Hi; congruence].
Qed.

Lemma Sorted_firstn {A} (R : A -> A -> Prop) (n : nat) (l : list A) :
  Sorted R l -> Sorted R (firstn n l).
Proof.
  revert n. induction l as [|x l IH]; intros n Hs; destruct n as [|n]; simpl;
    [constructor | constructor | constructor |].
  inversion Hs as [|? ? Hs' Hhd]; subst. constructor; [apply IH; exact Hs'|].
  destruct l as [|y l]; destruct n; simpl; constructor. inversion Hhd; assumption.
Qed.

Lemma Sorted_map_row (l : list EventRow) :
  Sorted later_or_equal l ->
  Sorted (fun a b => ev_timestamp b <= ev_timestamp a) (map row_to_event l).
Proof.
  induction 1 as [|x l Hs IH Hhd]; simpl; constructor; [exact IH|].
  destruct Hhd; simpl; constructor. exact H.
Qed.

Lemma select_events_ok (bucket_id : string) (conds : list (EventRow -> bool))
    (limit : option Z) (db : Db) (evs : list Event) (db' : Db) :
  select_events bucket_id conds limit db = (Ok evs, db') ->
  db' = db /\
  exists rows, evs = map row_to_event rows /\
    Sorted later_or_equal rows /\
    (forall r, In r rows -> In r (events db) /\ in_bucket bucket_id conds r = true) /\
    match limit with
    | None => List.length rows = List.length (List.filter (in_bucket bucket_id conds) (events db))
    | Some l => (List.length rows <= Z.to_nat (u64_as_i64 l))%nat
    end.
Proof.
  unfold select_events.
  set (rows := sort_desc (List.filter (in_bucket bucket_id conds) (events db))).
  assert (Hin : forall r, In r rows -> In r (events db) /\ in_bucket bucket_id conds r = true)
    by (intros r Hr; apply sort_desc_In, filter_In in Hr; exact Hr).
  destruct limit as [l|].
  - destruct (u64_as_i64 l <? 0); intros H; inversion H; subst; clear H.
    split; [reflexivity|]. exists (firstn (Z.to_nat (u64_as_i64 l)) rows).
    split; [reflexivity|]. split; [apply Sorted_firstn, sort_desc_sorted|].
    split; [intros r Hr; apply Hin; rewrite <- (firstn_skipn (Z.to_nat (u64_as_i64 l)) rows);
           apply in_or_app; left; exact Hr |]. apply firstn_le_length.
  - intros H; inversion H; subst; clear H.
    split; [reflexivity|]. exists rows. split; [reflexivity|].
    split; [apply sort_desc_sorted|]. split; [exact Hin | apply sort_desc_length].
Qed.

Lemma get_events_is_select (bucket_id : string) (s e limit : option Z) (db : Db) :
  exists conds, get_events bucket_id s e limit db = select_events bucket_id conds limit db /\
    forall r, in_bucket bucket_id conds r = true ->
      er_bucket_id r = bucket_id /\
      ((limit <> None \/ (is_Some s <-> is_Some e)) ->
       (forall st, s = Some st -> st <= er_timestamp r + er_duration r) /\
       (forall en, e = Some en -> er_timestamp r <= en)).
Proof.
  unfold in_bucket.
  destruct s as [st|], e as [en|], limit as [l|]; eexists; (split; [reflexivity|]);
    intros r Hr; cbn in Hr; unfold ends_after, starts_before in Hr;
    rewrite ?andb_true_r, ?andb_true_iff, ?bool_decide_eq_true, ?Z.leb_le in Hr;
    destruct_and? Hr; (split; [assumption|]); intros Hcase;
    first [ split; intros ? Heq; (discriminate || (injection Heq as <-; assumption))
          | exfalso; destruct Hcase as [Hc | [Hc1 Hc2]];
            [ exact (Hc eq_refl)
            | first [ destruct (Hc1 (ltac:(eexists; reflexivity))) as [? Hx]
                    | destruct (Hc2 (ltac:(eexists; reflexivity))) as [? Hx] ];
              discriminate ] ].
Qed.

(** Every result of [get_events] is sorted by timestamp, latest first,
    and reading leaves the database as it was; it fails only on a limit
    whose [i64] reinterpretation is negative. *)
Theorem get_events_sorted (bucket_id : string) (s e limit : option Z) (db : Db) :
  match get_events bucket_id s e limit db with
  | (Ok evs, db') => db' = db /\ Sorted (fun a b => ev_timestamp b <= ev_timestamp a) evs
  | (Err _, db') => db' = db /\ exists l, limit = Some l /\ u64_as_i64 l < 0
  end.
Proof.
  destruct (get_events_is_select bucket_id s e limit db) as (conds & -> & _).
  destruct (select_events bucket_id conds limit db) as [[evs|err] db'] eqn:H.
  - destruct (select_events_ok _ _ _ _ _ _ H) as (-> & rows & -> & Hs & _).
    split; [reflexivity | apply Sorted_map_row, Hs].
  - unfold select_events in H. destruct limit as [l|]; [|discriminate].
    destruct (Z.ltb_spec (u64_as_i64 l) 0); inversion H; subst.
    split; [reflexivity | exists l; split; [reflexivity | assumption]].
Qed.


(** Except in the two arms that fall through to the unfiltered query
    (one bound given, no limit), every event [get_events] returns is a
    row of the bucket that ends at or after [start] and begins at or
    before [end]. *)
Theorem get_events_within_bounds (bucket_id : string) (s e limit : option Z) (db : Db)
    (Harm : limit <> None \/ (is_Some s <-> is_Some e)) :
  match get_events bucket_id s e limit db with
  | (Ok evs, _) =>
      forall ev, In ev evs -> exists r,
        In r (events db) /\ er_bucket_id r = bucket_id /\ ev = row_to_event r /\
        (forall st, s = Some st -> st <= er_timestamp r + er_duration r) /\
        (forall en, e = Some en -> er_timestamp r <= en)
  | (Err _, _) => True
  end.
Proof.
  destruct (get_events_is_select bucket_id s e limit db) as (conds & -> & Hconds).
  destruct (select_events bucket_id conds limit db) as [[evs|err] db'] eqn:H; [|exact I].
  destruct (select_events_ok _ _ _ _ _ _ H) as (_ & rows & -> & _ & Hrows & _).
  intros ev Hev. apply in_map_iff in Hev as (r & <- & Hr).
  destruct (Hrows r Hr) as [Hdb Hb]. destruct (Hconds r Hb) as [Hid Hbounds].
  destruct (Hbounds Harm) as [H1 H2]. exists r. auto.
Qed.

(** Where both queries apply the same filter (both bounds or none),
    [get_event_count] equals the length of the unlimited [get_events]. *)
Theorem get_event_count_matches_get_events (bucket_id : string) (s e : option Z) (db : Db)
    (Harm : is_Some s <-> is_Some e) :
  match get_events bucket_id s e None db, get_event_count bucket_id s e db with
  | (Ok evs, _), (Ok n, _) => n = Z.of_nat (List.length evs)
  | _, _ => False
  end.
Proof.
  destruct s as [st|], e as [en|];
    try (exfalso; destruct Harm as [H1 H2];
         first [destruct (H1 (ltac:(eexists; reflexivity))) as [? Hx]
               | destruct (H2 (ltac:(eexists; reflexivity))) as [? Hx]]; discriminate);
    cbn [get_events get_event_count select_events count_events];
    rewrite length_map, sort_desc_length; reflexivity.
Qed.

End EventQueries.


Lemma get_events_within_bounds_witness :
  (Some 5000000 <> None \/ (is_Some (Some 0) <-> is_Some (Some 20000000))) /\
  match postgres_helpers.get_events "b" (Some 0) (Some 20000000) (Some 5000000) Fixtures.db_b with
  | (Ok evs, _) =>
      forall ev, In ev evs -> exists r,
        In r (postgres_helpers.events Fixtures.db_b) /\ postgres_helpers.er_bucket_id r = "b" /\
        ev = postgres_helpers.row_to_event r /\
        (forall st, Some 0 = Some st -> st <= postgres_helpers.er_timestamp r + postgres_helpers.er_duration r) /\
        (forall en, Some 20000000 = Some en -> postgres_helpers.er_timestamp r <= en)
  | (Err _, _) => True
  end.
Proof.
  assert (h : Some 5000000 <> None \/ (is_Some (Some 0) <-> is_Some (Some 20000000)))
    by (left; discriminate).
  exact (conj h (EventQueries.get_events_within_bounds "b" (Some 0) (Some 20000000)
                   (Some 5000000) Fixtures.db_b h)).
Defined.

Lemma get_event_count_matches_get_events_witness :
  (is_Some (Some 0) <-> is_Some (Some 20000000)) /\
  match postgres_helpers.get_events "b" (Some 0) (Some 20000000) None Fixtures.db_b,
        postgres_helpers.get_event_count "b" (Some 0) (Some 20000000) Fixtures.db_b with
  | (Ok evs, _), (Ok n, _) => n = Z.of_nat (List.length evs)
  | _, _ => False
  end.
Proof.
  assert (h : is_Some (Some 0) <-> is_Some (Some 20000000))
    by (split; intros _; eexists; reflexivity).
  exact (conj h (EventQueries.get_event_count_matches_get_events "b" (Some 0) (Some 20000000)
                   Fixtures.db_b h)).
Defined.

(* ------------------------------------------------------------------ *)
(** ** Further properties of the bucket and event writes *)

Module StoreWrites.
Import postgres_helpers.

Lemma bucket_exists_iff (db : Db) (bucket_id : string) :
  bucket_exists db bucket_id = true <->
  exists r, In r (buckets db) /\ br_bucket_id r = bucket_id.
Proof.
  unfold bucket_exists. rewrite existsb_exists. split.
  - intros (r & Hin & Hb). exists r. split; [exact Hin | exact (bool_decide_eq_true_1 _ Hb)].
  - intros (r & Hin & Hb). exists r. split; [exact Hin | exact (bool_decide_eq_true_2 _ Hb)].
Qed.

Lemma num_microseconds_Some (d us : Z) : num_microseconds d = Some us -> us = d.
Proof. unfold num_microseconds. destruct (_ && _); congruence. Qed.

Lemma filter_all_false {A} (f : A -> bool) (l : list A) :
  (forall y, In y l -> f y = false) -> List.filter f l = [].
Proof.
  induction l as [|x l IH]; simpl; intros H; [reflexivity|].
  rewrite (H x (or_introl eq_refl)). apply IH. intros y Hy. apply H. right. exact Hy.
Qed.

(** [create_bucket] fails with [BucketAlreadyExists] exactly when a
    bucket of that name is stored, and then leaves both tables as they
    were; on success the new bucket takes the next serial id and the
    given creation time, or the current time if none was given, and
    no event row changes. *)
Theorem create_bucket_result (bucket : Bucket) (db : Db) :
  match create_bucket bucket db with
  | (Ok b', db') =>
      bucket_exists db (b_id bucket) = false /\
      b_bid b' = Some (buckets_id_seq db) /\ b_id b' = b_id bucket /\
      b_created b' = Some (default (now db) (b_created bucket)) /\
      bucket_exists db' (b_id bucket) = true /\ events db' = events db /\
      buckets_id_seq db' = buckets_id_seq db + 1
  | (Err e, db') =>
      bucket_exists db (b_id bucket) = true /\ e = BucketAlreadyExists (b_id bucket) /\
      buckets db' = buckets db /\ events db' = events db
  end.
Proof.
  unfold create_bucket. destruct (bucket_exists db (b_id bucket)) eqn:He; simpl.
  - repeat split; reflexivity.
  - repeat split; try reflexivity.
    apply bucket_exists_iff. simpl. eexists. split; [apply in_or_app; right; left; reflexivity|].
    reflexivity.
Qed.


(** [delete_bucket] fails with [NoSuchBucket] and changes nothing when
    no bucket of that name is stored; otherwise it removes the bucket
    and, by the cascade, exactly the events of that bucket. *)
Theorem delete_bucket_cascade (bucket_id : string) (db : Db) :
  match delete_bucket bucket_id db with
  | (Ok _, db') =>
      bucket_exists db bucket_id = true /\ bucket_exists db' bucket_id = false /\
      (forall r, In r (buckets db') <-> In r (buckets db) /\ br_bucket_id r <> bucket_id) /\
      (forall r, In r (events db') <-> In r (events db) /\ er_bucket_id r <> bucket_id)
  | (Err e, db') =>
      bucket_exists db bucket_id = false /\ e = NoSuchBucket bucket_id /\ db' = db
  end.
Proof.
  unfold delete_bucket. destruct (bucket_exists db bucket_id) eqn:He; simpl.
  - split; [reflexivity|]. split; [|split].
    + apply not_true_iff_false. rewrite bucket_exists_iff. simpl.
      intros (r & Hin & Hb). apply filter_In in Hin as [_ Hn].
      rewrite bool_decide_eq_true_2 in Hn by exact Hb. discriminate.
    + intros r. rewrite filter_In, negb_true_iff, bool_decide_eq_false. reflexivity.
    + intros r. rewrite filter_In, negb_true_iff, bool_decide_eq_false. reflexivity.
  - repeat split; reflexivity.
Qed.

Lemma insert_events_spec (bucket_id : string) (evs : list Event) (db : Db) :
  match insert_events bucket_id evs db with
  | (Ok out, db') =>
      out = imap (inserted_event (events_id_seq db)) evs /\
      events db' = events db ++ imap (inserted_row bucket_id (events_id_seq db)) evs /\
      events_id_seq db' = events_id_seq db + Z.of_nat (List.length evs) /\
      buckets db' = buckets db /\ key_value db' = key_value db
  | (Err e, db') =>
      (exists msg, e = InternalError msg) /\
      exists k, (k < List.length evs)%nat /\
        events db' = events db ++ imap (inserted_row bucket_id (events_id_seq db)) (firstn k evs) /\
        buckets db' = buckets db /\ key_value db' = key_value db
  end.
Proof.
  revert db. induction evs as [|ev rest IH]; intros db; simpl.
  - rewrite app_nil_r. repeat split; lia.
  - destruct (num_microseconds (ev_duration ev)) as [us|] eqn:Hus.
    2: { split; [eexists; reflexivity|]. exists 0%nat. simpl.
         rewrite app_nil_r. repeat split; lia. }
    apply num_microseconds_Some in Hus as ->.
    destruct (bucket_exists db bucket_id) eqn:Hb.
    2: { split; [eexists; reflexivity|]. exists 0%nat. simpl.
         rewrite app_nil_r. repeat split; lia. }
    specialize (IH (set_events db (events db ++
      [mkEventRow (events_id_seq db) bucket_id (ev_timestamp ev) (ev_duration ev) (ev_data ev)])
      (events_id_seq db + 1))).
    destruct (insert_events bucket_id rest _) as [[out|e] db'].
    + destruct IH as (Hout & Hev & Hseq & Hbk & Hkv). simpl in *.
      split; [|split; [|split; [|split]]].
      * rewrite Hout. f_equal.
        -- unfold inserted_event. f_equal. f_equal. lia.
        -- apply imap_ext. intros i x _. unfold inserted_event. simpl. f_equal. f_equal. lia.
      * rewrite Hev, <- app_assoc. simpl. f_equal.
        f_equal; [unfold inserted_row; f_equal; lia|].
        apply imap_ext. intros i x _. unfold inserted_row. simpl. f_equal. lia.
      * rewrite Hseq. lia.
      * exact Hbk.
      * exact Hkv.
    + destruct IH as (Hmsg & k & Hk & Hev & Hbk & Hkv). simpl in *.
      split; [exact Hmsg|]. exists (S k). split; [lia|].
      split; [|split; assumption].
      rewrite Hev. simpl. rewrite <- app_assoc. simpl. f_equal.
      f_equal; [unfold inserted_row; f_equal; lia|].
      apply imap_ext. intros i x _. unfold inserted_row. simpl. f_equal. lia.
Qed.

(** [insert_events] on success answers the events in order, the [i]-th
    carrying the id [seq + i] where [seq] is the id sequence before the
    call, and appends the matching rows to the table; on failure the
    error is an [InternalError] and the rows of the events before the
    failing one stay inserted. *)
Theorem insert_events_ok (bucket_id : string) (evs : list Event) (db : Db) :
  match insert_events bucket_id evs db with
  | (Ok out, db') =>
      out = imap (inserted_event (events_id_seq db)) evs /\
      events db' = events db ++ imap (inserted_row bucket_id (events_id_seq db)) evs /\
      events_id_seq db' = events_id_seq db + Z.of_nat (List.length evs) /\
      buckets db' = buckets db /\ key_value db' = key_value db
  | (Err e, db') =>
      (exists msg, e = InternalError msg) /\
      exists k, (k < List.length evs)%nat /\
        events db' = events db ++ imap (inserted_row bucket_id (events_id_seq db)) (firstn k evs) /\
        buckets db' = buckets db /\ key_value db' = key_value db
  end.
Proof. exact (insert_events_spec bucket_id evs db). Qed.



Lemma filter_idem {A} (f : A -> bool) (l : list A) :
  List.filter f (List.filter f l) = List.filter f l.
Proof.
  induction l as [|x l IH]; simpl; [reflexivity|].
  destruct (f x) eqn:Hx; simpl; [rewrite Hx|]; rewrite IH; reflexivity.
Qed.

(** [delete_events_by_id] always succeeds; it removes exactly the rows of
    the bucket whose id is listed, leaves the other tables and the id
    sequence alone, and repeating it changes nothing. *)
Theorem delete_events_by_id_effect (bucket_id : string) (event_ids : list Z) (db : Db) :
  match delete_events_by_id bucket_id event_ids db with
  | (Ok _, db') =>
      (forall r, In r (events db') <->
         In r (events db) /\ ~ (er_bucket_id r = bucket_id /\ In (er_id r) event_ids)) /\
      buckets db' = buckets db /\ key_value db' = key_value db /\
      events_id_seq db' = events_id_seq db /\
      delete_events_by_id bucket_id event_ids db' = (Ok tt, db')
  | (Err _, _) => False
  end.
Proof.
  unfold delete_events_by_id. destruct event_ids as [|id ids] eqn:Hids.
  - split; [|repeat split].
    intros r. split; [intros Hin; split; [exact Hin | intros [_ []]] | intros [Hin _]; exact Hin].
  - rewrite <- Hids. simpl. split; [intros r; split|].
    + intros Hin. apply filter_In in Hin as [Hin Hn]. split; [exact Hin|].
      intros [Hb Hi]. rewrite bool_decide_eq_true_2 in Hn by exact Hb. simpl in Hn.
      assert (existsb (Z.eqb (er_id r)) event_ids = true)
        by (apply existsb_exists; exists (er_id r); split; [exact Hi | apply Z.eqb_refl]).
      rewrite H in Hn. discriminate.
    + intros [Hin Hn]. apply filter_In. split; [exact Hin|].
      apply negb_true_iff, andb_false_iff.
      destruct (decide (er_bucket_id r = bucket_id)) as [Hb|Hb].
      * right. apply not_true_iff_false. intros He.
        apply existsb_exists in He as (i & Hi & Heq). apply Z.eqb_eq in Heq. subst i.
        exact (Hn (conj Hb Hi)).
      * left. apply bool_decide_eq_false_2. exact Hb.
    + split; [reflexivity|]. split; [reflexivity|]. split; [reflexivity|].
      unfold set_events. simpl. rewrite filter_idem. reflexivity.
Qed.

Lemma row_not_later_refl (a : EventRow) : row_not_later a a.
Proof. unfold row_not_later. lia. Qed.

Lemma row_not_later_trans (a b c : EventRow) :
  row_not_later a b -> row_not_later b c -> row_not_later a c.
Proof. unfold row_not_later. lia. Qed.

Lemma later_row_upper (a b : EventRow) :
  row_not_later a (later_row a b) /\ row_not_later b (later_row a b).
Proof.
  unfold later_row, row_not_later.
  destruct (Z.ltb_spec (er_timestamp a) (er_timestamp b));
    destruct (Z.eqb_spec (er_timestamp a) (er_timestamp b));
    destruct (Z.ltb_spec (er_id a) (er_id b)); simpl; lia.
Qed.

Lemma later_row_cases (a b : EventRow) : later_row a b = a \/ later_row a b = b.
Proof. unfold later_row. destruct (_ || _); auto. Qed.

Lemma fold_later_row_In (rs : list EventRow) (r : EventRow) :
  In (fold_left later_row rs r) (r :: rs).
Proof.
  revert r. induction rs as [|x rs IH]; intros r; simpl; [left; reflexivity|].
  destruct (IH (later_row r x)) as [He | Hin].
  - rewrite <- He. destruct (later_row_cases r x) as [-> | ->]; auto.
  - right; right; exact Hin.
Qed.

Lemma fold_later_row_upper (rs : list EventRow) (r y : EventRow) :
  In y (r :: rs) -> row_not_later y (fold_left later_row rs r).
Proof.
  revert r y. induction rs as [|x rs IH]; intros r y Hy; simpl in *.
  - destruct Hy as [<- | []]. apply row_not_later_refl.
  - destruct (later_row_upper r x) as [Hr Hx].
    destruct Hy as [<- | [<- | Hy]].
    + eapply row_not_later_trans; [exact Hr | apply IH; left; reflexivity].
    + eapply row_not_later_trans; [exact Hx | apply IH; left; reflexivity].
    + apply IH. right. exact Hy.
Qed.

Lemma last_row_Some (bucket_id : string) (db : Db) (r : EventRow) :
  last_row bucket_id db = Some r -> In r (events db) /\ er_bucket_id r = bucket_id.
Proof.
  unfold last_row. destruct (List.filter _ (events db)) as [|r0 rs] eqn:Hf; [discriminate|].
  intros Hr. injection Hr as <-.
  assert (Hin : In (fold_left later_row rs r0) (List.filter
            (fun r => bool_decide (er_bucket_id r = bucket_id)) (events db)))
    by (rewrite Hf; apply fold_later_row_In).
  apply filter_In in Hin as [Hin Hb]. split; [exact Hin | exact (bool_decide_eq_true_1 _ Hb)].
Qed.

(** The row [replace_last_event] rewrites is the latest of the bucket
    under [ORDER BY timestamp DESC, id DESC]: every row of the bucket
    comes no later; there is none exactly when the bucket holds no
    event. *)
Theorem last_row_latest (bucket_id : string) (db : Db) :
  match last_row bucket_id db with
  | Some r =>
      In r (events db) /\ er_bucket_id r = bucket_id /\
      forall r', In r' (events db) -> er_bucket_id r' = bucket_id -> row_not_later r' r
  | None => forall r, In r (events db) -> er_bucket_id r <> bucket_id
  end.
Proof.
  destruct (last_row bucket_id db) as [r|] eqn:Hl.
  - destruct (last_row_Some _ _ _ Hl) as [Hin Hb]. split; [exact Hin|]. split; [exact Hb|].
    intros r' Hin' Hb'. unfold last_row in Hl.
    assert (H' : In r' (List.filter (fun r => bool_decide (er_bucket_id r = bucket_id)) (events db)))
      by (apply filter_In; split; [exact Hin' | apply bool_decide_eq_true_2, Hb']).
    destruct (List.filter _ (events db)) as [|r0 rs]; [discriminate|].
    injection Hl as <-. apply fold_later_row_upper. exact H'.
  - intros r Hin Hb. unfold last_row in Hl.
    assert (H' : In r (List.filter (fun r => bool_decide (er_bucket_id r = bucket_id)) (events db)))
      by (apply filter_In; split; [exact Hin | apply bool_decide_eq_true_2, Hb]).
    destruct (List.filter _ (events db)); [contradiction | discriminate].
Qed.

(** [replace_last_event] keeps the row count, every row's id and bucket,
    and every row of the other buckets; it writes the new timestamp,
    duration and data into the latest row of the bucket, and is a no-op
    on an empty bucket.  It fails, changing nothing, only on a duration
    outside the [i64] microseconds. *)
Theorem replace_last_event_effect (bucket_id : string) (event : Event) (db : Db) :
  match replace_last_event bucket_id event db with
  | (Ok _, db') =>
      map er_id (events db') = map er_id (events db) /\
      map er_bucket_id (events db') = map er_bucket_id (events db) /\
      (forall r, In r (events db) -> er_bucket_id r <> bucket_id -> In r (events db')) /\
      buckets db' = buckets db /\ events_id_seq db' = events_id_seq db /\
      match last_row bucket_id db with
      | None => db' = db
      | Some last =>
          In (mkEventRow (er_id last) bucket_id (ev_timestamp event) (ev_duration event)
                (ev_data event)) (events db')
      end
  | (Err _, db') => num_microseconds (ev_duration event) = None /\ db' = db
  end.
Proof.
  unfold replace_last_event.
  destruct (num_microseconds (ev_duration event)) as [us|] eqn:Hus; [|split; reflexivity].
  apply num_microseconds_Some in Hus as ->.
  destruct (last_row bucket_id db) as [last|] eqn:Hl.
  - destruct (last_row_Some _ _ _ Hl) as [Hin Hb]. simpl.
    split; [|split; [|split; [|split; [|split]]]].
    + rewrite map_map. apply map_ext. intros r. destruct (_ && _); reflexivity.
    + rewrite map_map. apply map_ext. intros r. destruct (_ && _); reflexivity.
    + intros r Hr Hn. apply in_map_iff. exists r. split; [|exact Hr].
      rewrite bool_decide_eq_false_2 by exact Hn. reflexivity.
    + reflexivity.
    + reflexivity.
    + apply in_map_iff. exists last. split; [|exact Hin].
      rewrite bool_decide_eq_true_2 by exact Hb. rewrite Z.eqb_refl. simpl.
      rewrite Hb. reflexivity.
  - repeat split; auto.
Qed.

End StoreWrites.


(* ------------------------------------------------------------------ *)
(** ** Further properties of the stored buckets and the key-value store *)

Module StoreReads.
Import postgres_helpers.






Lemma like_match_percent (s : list ascii) : like_match ["%"%char] s = Some true.
Proof. induction s as [|c s IH]; [reflexivity|]. simpl in *. exact IH. Qed.

(** [LIKE '%'] matches every key. *)
Lemma like_percent (k : string) : like k "%" = Some true.
Proof. apply like_match_percent. Qed.

Lemma like_rows_percent (rows : list (string * string)) : like_rows "%" rows = Some rows.
Proof.
  induction rows as [|[k v] rows IH]; simpl; [reflexivity|].
  rewrite like_percent, IH. reflexivity.
Qed.

(** A pattern without [%], [_] or the escape character [\] matches under
    [LIKE] exactly the key equal to it, and the same pattern followed by
    [%] exactly the keys it is a prefix of (as in [settings.%]). *)
Theorem like_literal_pattern (k p : string)
    (Hp : Forall (fun c => c <> "%"%char /\ c <> "_"%char /\ c <> "\"%char)
            (list_ascii_of_string p)) :
  like k p = Some (bool_decide (k = p)) /\
  like k (String.append p "%") = Some (String.prefix p k).
Proof.
  unfold like. revert k. induction p as [|c p IH]; intros k; simpl in *.
  - split.
    + destruct k; reflexivity.
    + rewrite like_match_percent. destruct k; reflexivity.
  - inversion Hp as [|? ? (H1 & H2 & H3) Hp']; subst.
    destruct (ascii_dec c "%") as [E|_]; [contradiction|].
    destruct (ascii_dec c "_") as [E|_]; [contradiction|].
    destruct (ascii_dec c "\") as [E|_]; [contradiction|].
    destruct k as [|c' k]; simpl.
    + split; reflexivity.
    + destruct (ascii_dec c c') as [<- | Hne].
      * destruct (IH Hp' k) as [IH1 IH2]. rewrite IH1, IH2. split; [|reflexivity].
        f_equal. apply bool_decide_ext. split; [congruence | intros H; injection H; auto].
      * split; [|reflexivity]. f_equal. symmetry. apply bool_decide_eq_false_2. congruence.
Qed.

End StoreReads.

(** The key-value store through the worker. *)
Module KeyValueRequests.

(** Through the worker, [GetKeyValues "%"] lists every stored pair whose
    key starts with [settings.], and nothing else. *)
Theorem get_key_values_percent_lists_settings (w : DatastoreWorker)
    (buckets_cache : gmap string Bucket) (db : postgres_helpers.Db) :
  let '(r, w', c', db') := handle_request_postgres (GetKeyValues "%") w buckets_cache db in
  w' = w /\ c' = buckets_cache /\ db' = db /\
  match r with
  | Ok (RKeyValues result) =>
      forall k v, result !! k = Some v <->
        postgres_helpers.key_value db !! k = Some v /\
        String.prefix postgres_helpers.settings_prefix k = true
  | _ => False
  end.
Proof.
  cbn [handle_request_postgres get_key_values postgres_pool].
  unfold answer, postgres_helpers.get_key_values.
  rewrite StoreReads.like_rows_percent. split; [reflexivity|]. split; [reflexivity|]. split; [reflexivity|].
  intros k v. unfold postgres_helpers.collect_settings. rewrite collect_step_fold.
  2: { rewrite map_fst_fmap. apply NoDup_ListNoDup, NoDup_fst_map_to_list. }
  rewrite lookup_empty. split.
  - intros [[Hin Hp] | [Hs _]]; [|discriminate].
    split; [apply elem_of_map_to_list, list_elem_of_In, Hin | exact Hp].
  - intros [Hs Hp]. left. split; [apply list_elem_of_In, elem_of_map_to_list, Hs | exact Hp].
Qed.


(** Through the worker, [DeleteKeyValue k] answers [Empty] whether or
    not the key is stored, after which [GetKeyValue k] fails with
    [NoSuchKey k] and every other key reads as before. *)
Theorem delete_then_get_key_value (k : string) (w : DatastoreWorker)
    (buckets_cache : gmap string Bucket) (db : postgres_helpers.Db) :
  let '(r1, w1, c1, db1) := handle_request_postgres (DeleteKeyValue k) w buckets_cache db in
  r1 = Ok REmpty /\ w1 = w /\ c1 = buckets_cache /\
  (let '(r2, _, _, _) := handle_request_postgres (GetKeyValue k) w1 c1 db1 in
   r2 = Err (NoSuchKey k)) /\
  (forall k', k' <> k ->
     (let '(r2, _, _, _) := handle_request_postgres (GetKeyValue k') w1 c1 db1 in r2) =
     (let '(r2, _, _, _) := handle_request_postgres (GetKeyValue k') w buckets_cache db in r2)).
Proof.
  cbn [handle_request_postgres delete_key_value get_key_value postgres_pool].
  unfold answer, postgres_helpers.delete_key_value, postgres_helpers.get_key_value.
  simpl. split; [reflexivity|]. split; [reflexivity|]. split; [reflexivity|]. split.
  - rewrite lookup_delete_eq. reflexivity.
  - intros k' Hne. rewrite lookup_delete_ne by congruence.
    destruct (postgres_helpers.key_value db !! k'); reflexivity.
Qed.

End KeyValueRequests.

Lemma like_literal_pattern_witness :
  Forall (fun c => c <> "%"%char /\ c <> "_"%char /\ c <> "\"%char)
    (list_ascii_of_string "settings.") /\
  like "settings.theme" "settings." = Some false /\
  like "settings.theme" (String.append "settings." "%") = Some true.
Proof.
  assert (H : Forall (fun c => c <> "%"%char /\ c <> "_"%char /\ c <> "\"%char)
                (list_ascii_of_string "settings."))
    by (repeat constructor; discriminate).
  destruct (StoreReads.like_literal_pattern "settings.theme" "settings." H) as [H1 H2].
  split; [exact H|]. split; [rewrite H1; reflexivity | rewrite H2; reflexivity].
Defined.

(* ------------------------------------------------------------------ *)
(** ** The request protocol, for any pool *)

Section WorkerProtocol.
Context {St : Type} `{!PgPool St}.

(** Whatever the pool answers, the worker replies to each request with
    the response variant the sending [Datastore] method expects: no
    client method panics on a reply ([close] included, as [Close] never
    fails). *)
Theorem client_never_panics (request : Command) (w : DatastoreWorker)
    (buckets_cache : gmap string Bucket) (pool : St) :
  let '(r, _, _, _) := handle_request_postgres request w buckets_cache pool in
  client_panics request r = false.
Proof.
  destruct request; cbn [handle_request_postgres];
    unfold answer, heartbeat_after_lookup, merged_event_of, insert_one, last_event_lookup;
    repeat case_match; simplify_eq/=; reflexivity.
Qed.

(** A request that fails leaves the worker (its memo, counters and
    flags) and the bucket cache as they were. *)
Theorem failed_request_keeps_worker (request : Command) (w : DatastoreWorker)
    (buckets_cache : gmap string Bucket) (pool : St) :
  match handle_request_postgres request w buckets_cache pool with
  | (Err _, w', c', _) => w' = w /\ c' = buckets_cache
  | (Ok _, _, _, _) => True
  end.
Proof.
  destruct request; cbn [handle_request_postgres];
    unfold answer, heartbeat_after_lookup, merged_event_of, insert_one, last_event_lookup;
    repeat case_match; simplify_eq; auto.
Qed.

Lemma inner_loop_close (last_commit_time t : Z) (pre rest : list (Command * Z))
    (w : DatastoreWorker) (buckets_cache : gmap string Bucket) (pool : St) :
  let '(responses, w', _, _, rest') :=
    inner_loop last_commit_time (pre ++ (Close, t) :: rest) w buckets_cache pool in
  (List.length responses = S (List.length pre) /\ rest' = rest /\ quit w' = true) \/
  (exists pre1 pre2, pre = pre1 ++ pre2 /\ List.length responses = List.length pre1 /\
     rest' = pre2 ++ (Close, t) :: rest).
Proof.
  revert w buckets_cache pool.
  induction pre as [|[request now] pre IH]; intros w buckets_cache pool; simpl.
  - unfold inner_step, cycle_ends. simpl. rewrite orb_true_r. left. auto.
  - unfold inner_step.
    destruct (handle_request_postgres request w buckets_cache pool) as [[[r w'] c'] p'].
    destruct (cycle_ends w' last_commit_time now).
    + right. exists [(request, now)], pre. auto.
    + specialize (IH w' c' p').
      destruct (inner_loop last_commit_time (pre ++ (Close, t) :: rest) w' c' p')
        as [[[[responses w''] c''] p''] rest''].
      destruct IH as [(H1 & H2 & H3) | (pre1 & pre2 & -> & H1 & H2)].
      * left. simpl. auto.
      * right. exists ((request, now) :: pre1), pre2. simpl. auto.
Qed.

Lemma cycles_close (starts : list Z) (t : Z) (pre rest : list (Command * Z))
    (w : DatastoreWorker) (buckets_cache : gmap string Bucket) (pool : St) :
  let '(responses, _, _, _) := cycles starts (pre ++ (Close, t) :: rest) w buckets_cache pool in
  (List.length responses <= S (List.length pre))%nat.
Proof.
  revert pre w buckets_cache pool.
  induction starts as [|t0 later IH]; intros pre w buckets_cache pool; simpl; [lia|].
  pose proof (inner_loop_close t0 t pre rest (begin_cycle w) buckets_cache pool) as H.
  destruct (inner_loop t0 (pre ++ (Close, t) :: rest) (begin_cycle w) buckets_cache pool)
    as [[[[responses w'] c'] p'] rest'].
  destruct (quit w') eqn:Hq.
  - destruct H as [(H1 & _ & _) | (pre1 & pre2 & -> & H1 & _)]; rewrite ?length_app; lia.
  - destruct H as [(_ & _ & H3) | (pre1 & pre2 & -> & H1 & ->)]; [congruence|].
    specialize (IH pre2 w' c' p').
    destruct (cycles later (pre2 ++ (Close, t) :: rest) w' c' p') as [[[responses' w''] c''] p''].
    rewrite !length_app. lia.
Qed.

(** [Close] ends the worker: of an inbox holding [Close] after the
    requests [pre], [work_loop_postgres] answers at most the requests of
    [pre] and the [Close]; no request after it is ever handled. *)
Theorem no_request_after_close (cycle_starts : list Z) (t : Z)
    (pre rest : list (Command * Z)) (w : DatastoreWorker) (pool : St) :
  match work_loop_postgres cycle_starts (pre ++ (Close, t) :: rest) w pool with
  | Some (responses, _, _, _) => (List.length responses <= S (List.length pre))%nat
  | None => True
  end.
Proof.
  unfold work_loop_postgres. destruct (get_stored_buckets pool) as [[m|e] pool']; [|exact I].
  pose proof (cycles_close cycle_starts t pre rest w m pool') as H.
  destruct (cycles cycle_starts (pre ++ (Close, t) :: rest) w m pool') as [[[responses w'] c'] p'].
  exact H.
Qed.

End WorkerProtocol.

(* ------------------------------------------------------------------ *)
(** ** The heartbeat's writes on the PostgreSQL model *)

Module HeartbeatRows.

Lemma get_events_keeps_db (bucket_id : string) (s e limit : option Z)
    (db : postgres_helpers.Db) :
  snd (postgres_helpers.get_events bucket_id s e limit db) = db.
Proof.
  unfold postgres_helpers.get_events, postgres_helpers.select_events.
  repeat case_match; reflexivity.
Qed.

Lemma replace_last_event_ids (bucket_id : string) (event : Event) (db : postgres_helpers.Db) :
  map postgres_helpers.er_id
    (postgres_helpers.events (snd (postgres_helpers.replace_last_event bucket_id event db))) =
  map postgres_helpers.er_id (postgres_helpers.events db).
Proof.
  unfold postgres_helpers.replace_last_event.
  destruct (num_microseconds (ev_duration event)); [|reflexivity].
  destruct (postgres_helpers.last_row bucket_id db); [|reflexivity].
  simpl. rewrite map_map. apply map_ext. intros r. destruct (_ && _); reflexivity.
Qed.

Lemma merged_event_of_rows (bucketname : string) (event : Event) (pulsetime : Z)
    (last_event_opt : option Event) (db : postgres_helpers.Db) :
  exists extra : list postgres_helpers.EventRow, (List.length extra <= 1)%nat /\
    map postgres_helpers.er_id
      (postgres_helpers.events (snd (merged_event_of bucketname event pulsetime last_event_opt db))) =
    map postgres_helpers.er_id (postgres_helpers.events db) ++ map postgres_helpers.er_id extra.
Proof.
  assert (Hins : exists extra : list postgres_helpers.EventRow, (List.length extra <= 1)%nat /\
            map postgres_helpers.er_id (postgres_helpers.events (snd (insert_one bucketname event db))) =
            map postgres_helpers.er_id (postgres_helpers.events db) ++ map postgres_helpers.er_id extra).
  { unfold insert_one. cbn [insert_events postgres_pool].
    pose proof (StoreWrites.insert_events_spec bucketname [event] db) as H.
    destruct (postgres_helpers.insert_events bucketname [event] db) as [[out|e] db'].
    - destruct H as (_ & Hev & _). simpl. rewrite Hev, map_app.
      eexists. split; [|reflexivity]. simpl. lia.
    - destruct H as (_ & k & Hk & Hev & _). simpl. rewrite Hev, map_app.
      eexists. split; [|reflexivity]. rewrite length_imap, length_firstn. simpl in *. lia. }
  unfold merged_event_of.
  destruct last_event_opt as [last_event|]; [|exact Hins].
  destruct (heartbeat last_event event pulsetime) as [merged|]; [|exact Hins].
  cbn [replace_last_event postgres_pool].
  pose proof (replace_last_event_ids bucketname merged db) as H.
  destruct (postgres_helpers.replace_last_event bucketname merged db) as [[u|e] db'];
    exists []; simpl in *; rewrite app_nil_r; split; auto.
Qed.

(** Through the worker on the PostgreSQL model, a [Heartbeat] never
    removes an event row nor changes a row's id: the table after it is
    the table before it, rows rewritten in place, plus at most one
    appended row. *)
Theorem heartbeat_appends_at_most_one_row (bucketname : string) (event : Event)
    (pulsetime : Z) (w : DatastoreWorker) (buckets_cache : gmap string Bucket)
    (db : postgres_helpers.Db) :
  let '(_, _, _, db') :=
    handle_request_postgres (Heartbeat bucketname event pulsetime) w buckets_cache db in
  exists extra : list postgres_helpers.EventRow, (List.length extra <= 1)%nat /\
    map postgres_helpers.er_id (postgres_helpers.events db') =
    map postgres_helpers.er_id (postgres_helpers.events db) ++ map postgres_helpers.er_id extra.
Proof.
  cbn [handle_request_postgres]. unfold last_event_lookup.
  assert (Hk : forall lo db0, db0 = db ->
            let '(_, _, _, db') := heartbeat_after_lookup bucketname event pulsetime lo w
                                     buckets_cache db0 in
            exists extra : list postgres_helpers.EventRow, (List.length extra <= 1)%nat /\
              map postgres_helpers.er_id (postgres_helpers.events db') =
              map postgres_helpers.er_id (postgres_helpers.events db) ++
              map postgres_helpers.er_id extra).
  { intros lo db0 ->. unfold heartbeat_after_lookup.
    pose proof (merged_event_of_rows bucketname event pulsetime lo db) as H.
    destruct (merged_event_of bucketname event pulsetime lo db) as [[m|e] db']; exact H. }
  destruct (last_heartbeat w !! bucketname) as [cached|].
  - apply Hk. reflexivity.
  - cbn [get_events postgres_pool].
    pose proof (get_events_keeps_db bucketname None None (Some 1) db) as Hd.
    destruct (postgres_helpers.get_events bucketname None None (Some 1) db) as [[evs|e] db0];
      simpl in Hd.
    + apply Hk. exact Hd.
    + subst db0. exists []. split; [simpl; lia | rewrite app_nil_r; reflexivity].
Qed.

End HeartbeatRows.

(* ------------------------------------------------------------------ *)
(** ** Requests composed through the worker, and the logged connection string *)

Module Compositions.

Lemma find_char_app (c : ascii) (a b : string) :
  find_char c a = None ->
  find_char c (String.append a (String c b)) = Some (String.length a).
Proof.
  induction a as [|c' a IH]; simpl; intros Ha.
  - destruct (ascii_dec c c) as [_|E]; [reflexivity | contradiction].
  - destruct (ascii_dec c c'); [discriminate|].
    destruct (find_char c a); [discriminate|]. rewrite IH by reflexivity. reflexivity.
Qed.

Lemma str_drop_app (a b : string) :
  str_drop (S (String.length a)) (String.append a (String "@"%char b)) = b.
Proof. induction a as [|c a IH]; simpl; [reflexivity | exact IH]. Qed.

(** The logged connection string keeps nothing of the text before the
    first [@] (the user and password when they hold no [@]): it is the
    fixed [postgresql://***@] followed by the text after that [@], or
    [postgresql://***] alone when there is no [@]. *)
Theorem mask_connection_hides_userinfo (userinfo rest : string)
    (Hu : find_char "@" userinfo = None) :
  mask_connection (String.append userinfo (String "@"%char rest)) =
    String.append "postgresql://***@" rest /\
  mask_connection userinfo = "postgresql://***".
Proof.
  unfold mask_connection. rewrite find_char_app by exact Hu. rewrite Hu.
  rewrite str_drop_app. split; reflexivity.
Qed.

Lemma delete_bucket_events (bucket_id : string) (db db' : postgres_helpers.Db) (u : unit) :
  postgres_helpers.delete_bucket bucket_id db = (Ok u, db') ->
  forall r, In r (postgres_helpers.events db') -> postgres_helpers.er_bucket_id r <> bucket_id.
Proof.
  unfold postgres_helpers.delete_bucket. destruct (postgres_helpers.bucket_exists db bucket_id);
    [|discriminate].
  intros H. injection H as _ <-. simpl. intros r Hin.
  apply filter_In in Hin as [_ Hn]. apply negb_true_iff, bool_decide_eq_false in Hn. exact Hn.
Qed.

(** Through the worker, once [DeleteBucket b] succeeds, [GetEvents b]
    without a limit answers no event and [GetEventCount b] answers [0],
    whatever the time range: the bucket's events went with it. *)
Theorem delete_bucket_then_no_events (bucket_id : string) (s e : option Z)
    (w : DatastoreWorker) (buckets_cache : gmap string Bucket) (db : postgres_helpers.Db) :
  match handle_request_postgres (DeleteBucket bucket_id) w buckets_cache db with
  | (Ok _, w1, c1, db1) =>
      (let '(r, _, _, _) := handle_request_postgres (GetEvents bucket_id s e None) w1 c1 db1 in
       r = Ok (REventList [])) /\
      (let '(r, _, _, _) := handle_request_postgres (GetEventCount bucket_id s e) w1 c1 db1 in
       r = Ok (RCount 0))
  | (Err _, _, _, _) => True
  end.
Proof.
  cbn [handle_request_postgres delete_bucket postgres_pool].
  destruct (postgres_helpers.delete_bucket bucket_id db) as [[u|err] db1] eqn:Hd; [|exact I].
  pose proof (delete_bucket_events _ _ _ _ Hd) as Hno.
  assert (Hf : forall conds, List.filter (postgres_helpers.in_bucket bucket_id conds)
                               (postgres_helpers.events db1) = []).
  { intros conds. apply StoreWrites.filter_all_false. intros r Hr.
    unfold postgres_helpers.in_bucket. rewrite bool_decide_eq_false_2 by exact (Hno r Hr).
    reflexivity. }
  cbn [get_events get_event_count postgres_pool]. unfold answer.
  split.
  - unfold postgres_helpers.get_events, postgres_helpers.select_events.
    destruct s, e; rewrite Hf; reflexivity.
  - unfold postgres_helpers.get_event_count, postgres_helpers.count_events.
    destruct s, e; rewrite Hf; reflexivity.
Qed.

(** Through the worker, after [DeleteEventsById b ids], [GetEvent b id]
    fails with [Event not found] for every listed [id]. *)
Theorem delete_events_then_get_event (bucket_id : string) (event_ids : list Z)
    (w : DatastoreWorker) (buckets_cache : gmap string Bucket) (db : postgres_helpers.Db) :
  let '(r1, w1, c1, db1) :=
    handle_request_postgres (DeleteEventsById bucket_id event_ids) w buckets_cache db in
  r1 = Ok REmpty /\
  forall id, In id event_ids ->
    let '(r2, _, _, _) := handle_request_postgres (GetEvent bucket_id id) w1 c1 db1 in
    r2 = Err (InternalError "Event not found").
Proof.
  cbn [handle_request_postgres delete_events_by_id get_event postgres_pool]. unfold answer.
  unfold postgres_helpers.delete_events_by_id.
  destruct event_ids as [|id0 ids] eqn:Hids; [split; [reflexivity | intros _ []]|].
  rewrite <- Hids. split; [reflexivity|]. intros id Hin.
  unfold postgres_helpers.get_event. simpl.
  rewrite StoreWrites.filter_all_false; [reflexivity|].
  intros r Hr. apply filter_In in Hr as [_ Hn].
  apply andb_false_iff. destruct (decide (postgres_helpers.er_bucket_id r = bucket_id)) as [Hb|Hb].
  - right. apply Z.eqb_neq. intros <-. rewrite bool_decide_eq_true_2 in Hn by exact Hb.
    assert (existsb (Z.eqb (postgres_helpers.er_id r)) event_ids = true)
      by (apply existsb_exists; exists (postgres_helpers.er_id r); split; [exact Hin | apply Z.eqb_refl]).
    rewrite H in Hn. discriminate.
  - left. apply bool_decide_eq_false_2. exact Hb.
Qed.

End Compositions.

Lemma mask_connection_hides_userinfo_witness :
  find_char "@" "postgresql://aw:secret" = None /\
  mask_connection (String.append "postgresql://aw:secret" (String "@"%char "db:5432/aw")) =
    String.append "postgresql://***@" "db:5432/aw" /\
  mask_connection "postgresql://aw:secret" = "postgresql://***".
Proof.
  assert (H : find_char "@" "postgresql://aw:secret" = None) by reflexivity.
  split; [exact H | exact (Compositions.mask_connection_hides_userinfo _ _ H)].
Defined.
